(** * Statistics collection and read filtering of atropos

    A shallow embedding of [atropos/commands/stats.py] (per-read statistics
    collectors and their manager) and [atropos/commands/trim/filters.py]
    (discard predicates, their single-end/paired-end wrappers and the
    ordered filter chain).

    Python exceptions are modelled by a small state-and-exception monad
    [PyM]: a raised exception carries the state reached at the point of the
    raise, because Python keeps every mutation done before it. *)

From Stdlib Require Import List String Ascii ZArith QArith Lia Bool Sorted Permutation.
Import ListNotations.
Open Scope nat_scope.

(* ------------------------------------------------------------------ *)
(** ** Python runtime: exceptions and the state/exception monad *)

Inductive Exn : Type :=
| ZeroDivisionError
| TypeError
| ValueError
| IndexError
| AttributeError
| UnboundLocalError
| NameError
| AssertionError.

Inductive Outcome (S A : Type) : Type :=
| Ok (s : S) (a : A)
| Raised (e : Exn) (s : S).
Arguments Ok {S A} s a.
Arguments Raised {S A} e s.

Definition PyM (S A : Type) : Type := S -> Outcome S A.

Definition ret {S A} (a : A) : PyM S A := fun s => Ok s a.
Definition bind {S A B} (m : PyM S A) (k : A -> PyM S B) : PyM S B :=
  fun s => match m s with
           | Ok s' a => k a s'
           | Raised e s' => Raised e s'
           end.
Definition raise {S A} (e : Exn) : PyM S A := fun s => Raised e s.
Definition get {S} : PyM S S := fun s => Ok s s.
Definition modify {S} (f : S -> S) : PyM S unit := fun s => Ok (f s) tt.

Notation "x <- m ;; k" := (bind m (fun x => k))
  (at level 61, m at next level, right associativity).
Notation "' p <- m ;; k" := (bind m (fun x => match x with p => k end))
  (at level 61, p pattern, m at next level, right associativity).
Notation "m ;; k" := (bind m (fun _ => k))
  (at level 61, right associativity).

(** The state an outcome ends in, whether or not it raised. *)
Definition final_state {S A} (o : Outcome S A) : S :=
  match o with Ok s _ => s | Raised _ s => s end.

(** Dictionary keys: a boolean equality that reflects [=]. *)
Class KeyEq (K : Type) := {
  keq : K -> K -> bool;
  keq_spec : forall x y, reflect (x = y) (keq x y)
}.
#[global] Instance KeyEq_nat : KeyEq nat := {| keq := Nat.eqb; keq_spec := Nat.eqb_spec |}.
#[global] Instance KeyEq_Z : KeyEq Z := {| keq := Z.eqb; keq_spec := Z.eqb_spec |}.
#[global] Instance KeyEq_ascii : KeyEq ascii := {| keq := Ascii.eqb; keq_spec := Ascii.eqb_spec |}.
#[global] Instance KeyEq_string : KeyEq string := {| keq := String.eqb; keq_spec := String.eqb_spec |}.

(** Python's [round] of the quotient [p / q] for [q > 0]: ties go to the
    even neighbour.  The model computes the quotient exactly. *)
Definition py_round_div (p q : Z) : Z :=
  (let fl := Z.div p q in
   let r := p - fl * q in
   if 2 * r <? q then fl
   else if q <? 2 * r then fl + 1
   else if Z.even fl then fl else fl + 1)%Z.

(** [s.count(c)] for a one-character [c]. *)
Definition str_count (c : ascii) (s : string) : nat :=
  List.count_occ Ascii.ascii_dec (list_ascii_of_string s) c.

(** Truthiness of an optional Python string ([None] and [""] are false). *)
Definition truthy_str (o : option string) : bool :=
  match o with None => false | Some s => negb (String.eqb s ""%string) end.

(** Truthiness of an optional Python bool. *)
Definition truthy_bool (o : option bool) : bool :=
  match o with Some true => true | _ => false end.

(* ------------------------------------------------------------------ *)
(** ** atropos.util containers *)

(** Modelled from the spec: [CountingDict] (atropos.util, not in src/) is a
    mapping key -> count with increment-by-1 and lookup defaulting to zero.
    A Python dict keeps its keys in first-insertion order, so it is an
    association list with new keys appended. *)
Definition CountingDict (K : Type) : Type := list (K * nat).

Fixpoint cd_get {K} `{KeyEq K} (d : CountingDict K) (k : K) : nat :=
  match d with
  | [] => 0
  | (k', n) :: t => if keq k k' then n else cd_get t k
  end.

(** [d[k] += 1] *)
Fixpoint cd_incr {K} `{KeyEq K} (d : CountingDict K) (k : K) : CountingDict K :=
  match d with
  | [] => [(k, 1)]
  | (k', n) :: t => if keq k k' then (k', S n) :: t else (k', n) :: cd_incr t k
  end.

Definition cd_keys {K} (d : CountingDict K) : list K := map fst d.

(** Modelled from the spec: [NestedDict] (atropos.util, not in src/) maps a
    tile id to a [CountingDict]; a missing tile reads as an empty table. *)
Definition NestedDict (K : Type) : Type := list (string * CountingDict K).

(** [d[t][k] += 1] *)
Fixpoint nd_incr {K} `{KeyEq K} (d : NestedDict K) (t : string) (k : K) : NestedDict K :=
  match d with
  | [] => [(t, cd_incr [] k)]
  | (t', c) :: rest =>
      if String.eqb t t' then (t', cd_incr c k) :: rest
      else (t', c) :: nd_incr rest t k
  end.

(** ** BaseDicts: one table per read position *)

(** [BaseDicts.extend]: [n = size - len(self.dicts)]; append [n] empty tables
    when [n > 0].  (The nat subtraction is 0 exactly when the Python [n] is
    not positive.) *)
Definition extend {D} (empty : D) (dicts : list D) (size : nat) : list D :=
  let n := size - List.length dicts in
  if 0 <? n then dicts ++ repeat empty n else dicts.

(** [self.dicts[i]] followed by an in-place update of that table;
    [None] is Python's [IndexError]. *)
Fixpoint update_at {D} (l : list D) (i : nat) (f : D -> D) : option (list D) :=
  match l, i with
  | [], _ => None
  | x :: t, 0 => Some (f x :: t)
  | x :: t, S j => option_map (cons x) (update_at t j f)
  end.

(* ------------------------------------------------------------------ *)
(** ** Reads *)

Module Read.
(** The fields of an atropos [Sequence] record used by this code. *)
Record Sequence : Type := mkSequence {
  name : string;
  sequence : string;
  qualities : option string;
  merged : bool;
  match_ : option nat
}.
End Read.

(** [len(read)] *)
Definition read_len (r : Read.Sequence) : nat := String.length (Read.sequence r).

(** A compiled tile regexp, as its [match(name)] followed by [group(1)]. *)
Definition Regexp : Type := string -> option string.

(* ------------------------------------------------------------------ *)
(** ** ReadStatCollector (stats.py) *)

Record ReadStatCollector : Type := mkCollector {
  max_read_len : nat;
  count : nat;
  sequence_lengths : CountingDict nat;
  sequence_gc : CountingDict Z;
  bases : list (CountingDict ascii);
  tile_key_regexp : option Regexp;
  qualities : option bool;
  sequence_qualities : option (CountingDict Z);
  base_qualities : option (list (CountingDict ascii));
  tile_base_qualities : option (list (NestedDict ascii));
  tile_sequence_qualities : option (NestedDict Z)
}.

(** Attribute assignments [self.x = v]. *)
Definition set_qualities (c : ReadStatCollector) v : ReadStatCollector :=
  mkCollector (max_read_len c) (count c) (sequence_lengths c) (sequence_gc c)
    (bases c) (tile_key_regexp c) v (sequence_qualities c) (base_qualities c)
    (tile_base_qualities c) (tile_sequence_qualities c).
Definition set_counts (c : ReadStatCollector) n lens gcs : ReadStatCollector :=
  mkCollector (max_read_len c) n lens gcs
    (bases c) (tile_key_regexp c) (qualities c) (sequence_qualities c) (base_qualities c)
    (tile_base_qualities c) (tile_sequence_qualities c).
Definition set_bases (c : ReadStatCollector) v : ReadStatCollector :=
  mkCollector (max_read_len c) (count c) (sequence_lengths c) (sequence_gc c)
    v (tile_key_regexp c) (qualities c) (sequence_qualities c) (base_qualities c)
    (tile_base_qualities c) (tile_sequence_qualities c).
Definition set_sequence_qualities (c : ReadStatCollector) v : ReadStatCollector :=
  mkCollector (max_read_len c) (count c) (sequence_lengths c) (sequence_gc c)
    (bases c) (tile_key_regexp c) (qualities c) v (base_qualities c)
    (tile_base_qualities c) (tile_sequence_qualities c).
Definition set_base_qualities (c : ReadStatCollector) v : ReadStatCollector :=
  mkCollector (max_read_len c) (count c) (sequence_lengths c) (sequence_gc c)
    (bases c) (tile_key_regexp c) (qualities c) (sequence_qualities c) v
    (tile_base_qualities c) (tile_sequence_qualities c).
Definition set_tile_base_qualities (c : ReadStatCollector) v : ReadStatCollector :=
  mkCollector (max_read_len c) (count c) (sequence_lengths c) (sequence_gc c)
    (bases c) (tile_key_regexp c) (qualities c) (sequence_qualities c) (base_qualities c)
    v (tile_sequence_qualities c).
Definition set_tile_sequence_qualities (c : ReadStatCollector) v : ReadStatCollector :=
  mkCollector (max_read_len c) (count c) (sequence_lengths c) (sequence_gc c)
    (bases c) (tile_key_regexp c) (qualities c) (sequence_qualities c) (base_qualities c)
    (tile_base_qualities c) v.

(** [_init_qualities] *)
Definition init_qualities (c : ReadStatCollector) : ReadStatCollector :=
  let c := set_base_qualities (set_sequence_qualities c (Some [])) (Some []) in
  match tile_key_regexp c with
  | Some _ => set_tile_sequence_qualities (set_tile_base_qualities c (Some [])) (Some [])
  | None => c
  end.

(** [ReadStatCollector.__init__(qualities, tile_key_regexp)]; the [_cache]
    of derived values plays no part here. *)
Definition ReadStatCollector_new (qualities : option bool) (tile_key_regexp : option Regexp)
  : ReadStatCollector :=
  let c := mkCollector 0 0 [] [] [] tile_key_regexp qualities None None None None in
  if truthy_bool qualities then init_qualities c else c.

(** [track_tiles]: [self.qualities and self.tile_key_regexp is not None] *)
Definition track_tiles (c : ReadStatCollector) : bool :=
  truthy_bool (qualities c) &&
  match tile_key_regexp c with Some _ => true | None => false end.

Definition RSC := PyM ReadStatCollector.

(** [_extend_bases(new_size)]; [None.extend] is an [AttributeError]. *)
Definition extend_bases (new_size : nat) : RSC unit :=
  modify (fun c => set_bases c (extend [] (bases c) new_size)) ;;
  c <- get ;;
  if truthy_bool (qualities c) then
    (match base_qualities c with
     | None => raise AttributeError
     | Some bq => modify (fun c => set_base_qualities c (Some (extend [] bq new_size)))
     end) ;;
    c <- get ;;
    (if track_tiles c then
       match tile_base_qualities c with
       | None => raise AttributeError
       | Some tbq => modify (fun c => set_tile_base_qualities c (Some (extend [] tbq new_size)))
       end
     else ret tt)
  else ret tt.

(** [add_base(i, base, qual=None, tile=None)]; subscripting [None] is a
    [TypeError].  A quality symbol is a one-character string, always truthy. *)
Definition add_base (i : nat) (base : ascii) (qual : option ascii) (tile : option string)
  : RSC unit :=
  c <- get ;;
  (match update_at (bases c) i (fun d => cd_incr d base) with
   | None => raise IndexError
   | Some b => modify (fun c => set_bases c b)
   end) ;;
  match qual with
  | None => ret tt
  | Some q =>
      c <- get ;;
      (match base_qualities c with
       | None => raise TypeError
       | Some bq =>
           match update_at bq i (fun d => cd_incr d q) with
           | None => raise IndexError
           | Some bq' => modify (fun c => set_base_qualities c (Some bq'))
           end
       end) ;;
      if truthy_str tile then
        c <- get ;;
        match tile_base_qualities c, tile with
        | Some tbq, Some t =>
            match update_at tbq i (fun d => nd_incr d t q) with
            | None => raise IndexError
            | Some tbq' => modify (fun c => set_tile_base_qualities c (Some tbq'))
            end
        | _, _ => raise TypeError
        end
      else ret tt
  end.

(** [for i, (base, qual) in enumerate(zip(seq, quals)): self.add_base(i, base, qual, tile)] *)
Fixpoint add_bases (i : nat) (pairs : list (ascii * ascii)) (tile : option string) : RSC unit :=
  match pairs with
  | [] => ret tt
  | (b, q) :: t => add_base i b (Some q) tile ;; add_bases (S i) t tile
  end.

(** [sum(ord(q) for q in quals)] *)
Definition sum_ord (quals : string) : nat :=
  fold_left (fun acc q => acc + nat_of_ascii q) (list_ascii_of_string quals) 0.

(** [ReadStatCollector.collect(record)].  The local [quals] is bound only in
    the quality branch (the line before it binds [qual] and [tile]); once
    the loop reads an unbound [quals], Python raises [UnboundLocalError]. *)
Definition collect (record : Read.Sequence) : RSC unit :=
  c <- get ;;
  (if match qualities c with None => true | Some _ => false end
      && truthy_str (Read.qualities record)
   then modify (fun c => init_qualities (set_qualities c (Some true)))
   else ret tt) ;;
  let seq := Read.sequence record in
  let seqlen := String.length seq in
  gc <- (if Nat.eqb seqlen 0 then raise ZeroDivisionError
         else ret (py_round_div
                     (Z.of_nat ((str_count "C"%char seq + str_count "G"%char seq) * 100))
                     (Z.of_nat seqlen))) ;;
  modify (fun c => set_counts c (S (count c))
                     (cd_incr (sequence_lengths c) seqlen) (cd_incr (sequence_gc c) gc)) ;;
  c <- get ;;
  (if max_read_len c <? seqlen then extend_bases seqlen else ret tt) ;;
  c <- get ;;
  '(quals, tile) <-
    (if truthy_bool (qualities c) then
       match Read.qualities record with
       | None => raise TypeError
       | Some qs =>
           meanqual <- (if Nat.eqb seqlen 0 then raise ZeroDivisionError
                        else ret (py_round_div (Z.of_nat (sum_ord qs)) (Z.of_nat seqlen))) ;;
           (match sequence_qualities c with
            | None => raise TypeError
            | Some sq => modify (fun c => set_sequence_qualities c (Some (cd_incr sq meanqual)))
            end) ;;
           c <- get ;;
           if track_tiles c then
             match tile_key_regexp c with
             | None => raise AttributeError
             | Some rx =>
                 match rx (Read.name record) with
                 | Some t =>
                     (match tile_sequence_qualities c with
                      | None => raise TypeError
                      | Some tsq =>
                          modify (fun c => set_tile_sequence_qualities c
                                             (Some (nd_incr tsq t meanqual)))
                      end) ;;
                     ret (Some qs, Some t)
                 | None => raise ValueError
                 end
             end
           else ret (Some qs, None)
       end
     else ret (None, None)) ;;
  match quals with
  | None => raise UnboundLocalError
  | Some qs => add_bases 0 (combine (list_ascii_of_string seq) (list_ascii_of_string qs)) tile
  end.

(* ------------------------------------------------------------------ *)
(** ** Flattening positional tables (BaseCountingDicts / BaseNestedDicts) *)

(** Python's [sorted] on distinct keys, as an insertion sort by [le]. *)
Fixpoint insert_by {A} (le : A -> A -> bool) (x : A) (l : list A) : list A :=
  match l with
  | [] => [x]
  | h :: t => if le x h then x :: l else h :: insert_by le x t
  end.
Definition sorted_by {A} (le : A -> A -> bool) (l : list A) : list A :=
  fold_right (insert_by le) [] l.

(** [str] order on one-character keys is code-point order. *)
Definition ascii_le (a b : ascii) : bool := Nat.leb (nat_of_ascii a) (nat_of_ascii b).

(** [keys.update(ks)] on a Python set.  A set's iteration order is not
    specified; the model keeps first-insertion order. *)
Definition set_update {K} `{KeyEq K} (keys : list K) (ks : list K) : list K :=
  fold_left (fun acc k => if existsb (keq k) acc then acc else acc ++ [k]) ks keys.

Definition mem {K} `{KeyEq K} (k : K) (l : list K) : bool := existsb (keq k) l.

Inductive HeaderKey : Type :=
| HK (k : ascii)   (* a key as stored *)
| HQ (q : Z).      (* a quality key after [qual2int] *)

Definition Flattened : Type := (list HeaderKey * list (nat * list nat))%type.

(** [enumerate(xs, 1)] *)
Fixpoint enumerate {A} (i : nat) (xs : list A) : list (nat * A) :=
  match xs with [] => [] | x :: t => (i, x) :: enumerate (S i) t end.

Section Flatten.
(** [atropos.util.qual2int], not in src/: the spec says only that a quality
    symbol converts to a numeric Phred value, so it stays a parameter. *)
Variable qual2int : ascii -> Z.

(** [BaseCountingDicts.flatten(datatype)]; [datatype] is [None] or a string. *)
Definition flatten (dicts : list (CountingDict ascii)) (datatype : option string) : Flattened :=
  let keys := fold_left (fun acc d => set_update acc (cd_keys d)) dicts [] in
  let is_n := match datatype with Some s => String.eqb s "n" | None => false end in
  let is_q := match datatype with Some s => String.eqb s "q" | None => false end in
  let keys :=
    if is_n then
      let acgt := ["A"; "C"; "G"; "T"]%char in
      let N := if mem "N"%char keys then ["N"%char] else [] in
      acgt ++ filter (fun k => negb (mem k (acgt ++ N))) keys ++ N
    else sorted_by ascii_le keys in
  let header := if is_q then map (fun k => HQ (qual2int k)) keys else map HK keys in
  (header, map (fun '(i, d) => (i, map (cd_get d) keys)) (enumerate 1 dicts)).

(** [d[k1]] on a [NestedDict]: a missing tile reads as an empty table. *)
Fixpoint nd_get {K} (d : NestedDict K) (t : string) : CountingDict K :=
  match d with
  | [] => []
  | (t', c) :: rest => if String.eqb t t' then c else nd_get rest t
  end.

(** [BaseNestedDicts.flatten(datatype)] *)
Definition flatten_nested (dicts : list (NestedDict ascii)) (datatype : option string)
  : list HeaderKey * list (nat * string * list nat) :=
  let keys1 := fold_left (fun acc d => set_update acc (map fst d)) dicts [] in
  let keys2 := fold_left (fun acc d =>
                 fold_left (fun acc c => set_update acc (cd_keys (snd c))) d acc) dicts [] in
  let keys1 := sorted_by String.leb keys1 in
  let keys2 := sorted_by ascii_le keys2 in
  let is_q := match datatype with Some s => String.eqb s "q" | None => false end in
  let header := if is_q then map (fun k => HQ (qual2int k)) keys2 else map HK keys2 in
  (header, flat_map (fun k1 =>
     map (fun '(i, d) => (i, k1, map (cd_get (nd_get d k1)) keys2)) (enumerate 1 dicts)) keys1).

(** Modelled from the spec: [CountingDict.sorted_items] (atropos.util, not
    in src/) lists the (key, count) pairs in key order. *)
Definition sorted_items {K} (le : K -> K -> bool) (d : CountingDict K) : list (K * nat) :=
  sorted_by (fun a b => le (fst a) (fst b)) d.

(** The mapping returned by [ReadStatCollector.finish]; an absent key is
    [None].  [NestedDict.flatten(shape="wide")] is in atropos.util (not in
    src/) and the spec does not describe it: that entry keeps the table. *)
Record CollectorStats : Type := mkCollectorStats {
  st_count : nat;
  st_length : list (nat * nat);
  st_gc : list (Z * nat);
  st_bases : Flattened;
  st_qualities : option (list (Z * nat));
  st_base_qualities : option Flattened;
  st_tile_base_qualities : option (list HeaderKey * list (nat * string * list nat));
  st_tile_sequence_qualities : option (NestedDict Z)
}.

(** [ReadStatCollector.finish()] *)
Definition collector_finish (c : ReadStatCollector) : CollectorStats :=
  mkCollectorStats (count c)
    (sorted_items Nat.leb (sequence_lengths c))
    (sorted_items Z.leb (sequence_gc c))
    (flatten (bases c) (Some "n"%string))
    (match sequence_qualities c with
     | Some ((_ :: _) as sq) => Some (sorted_items Z.leb sq)
     | _ => None
     end)
    (option_map (fun bq => flatten bq (Some "q"%string)) (base_qualities c))
    (if track_tiles c
     then option_map (fun t => flatten_nested t (Some "q"%string)) (tile_base_qualities c)
     else None)
    (if track_tiles c then tile_sequence_qualities c else None).
End Flatten.

(* ------------------------------------------------------------------ *)
(** ** ReadStatistics: pre- and post-trim collectors (stats.py) *)

(** ['{}'.format(n)] for a natural number. *)
Fixpoint nat_digits (fuel n : nat) (acc : string) : string :=
  match fuel with
  | 0 => acc
  | S f =>
      let acc := String (ascii_of_nat (48 + n mod 10)) acc in
      if n <? 10 then acc else nat_digits f (n / 10) acc
  end.
Definition str_of_nat (n : nat) : string := nat_digits (S n) n EmptyString.

(** A Python dict as an association list in insertion order. *)
Fixpoint assoc_get {K B} `{KeyEq K} (k : K) (l : list (K * B)) : option B :=
  match l with
  | [] => None
  | (k', v) :: t => if keq k k' then Some v else assoc_get k t
  end.

(** [d[k] = v]: an existing key keeps its place. *)
Fixpoint assoc_set {K B} `{KeyEq K} (k : K) (v : B) (l : list (K * B)) : list (K * B) :=
  match l with
  | [] => [(k, v)]
  | (k', v') :: t => if keq k k' then (k', v) :: t else (k', v') :: assoc_set k v t
  end.

Fixpoint replace_nth {A} (l : list A) (i : nat) (x : A) : list A :=
  match l, i with
  | [], _ => []
  | _ :: t, 0 => x :: t
  | y :: t, S j => y :: replace_nth t j x
  end.

Section ReadStatistics.
Context {D : Type} `{KeyEq D}.
Variable qual2int : ascii -> Z.

Record ReadStatistics : Type := mkReadStatistics {
  mode : string;
  paired : bool;
  collector_args : option bool * option Regexp;  (* qualities, tile_key_regexp *)
  pre : option (list ReadStatCollector);
  post : option (list (D * list ReadStatCollector))
}.

Definition set_post (m : ReadStatistics) p : ReadStatistics :=
  mkReadStatistics (mode m) (paired m) (collector_args m) (pre m) p.

(** [_make_collectors] *)
Definition make_collectors (m : ReadStatistics) : list ReadStatCollector :=
  repeat (ReadStatCollector_new (fst (collector_args m)) (snd (collector_args m)))
         (if paired m then 2 else 1).

(** [ReadStatistics.__init__(mode, paired, **kwargs)] *)
Definition ReadStatistics_new (mode : string) (paired : bool) (args : option bool * option Regexp)
  : ReadStatistics :=
  let is s := String.eqb mode s in
  let m0 := mkReadStatistics mode paired args None None in
  mkReadStatistics mode paired args
    (if is "pre"%string || is "both"%string then Some (make_collectors m0) else None)
    (if is "post"%string || is "both"%string then Some [] else None).

(** [self.post[dest][i].collect(record[i])] *)
Definition collect_post (dest : D) (i : nat) (record : list Read.Sequence)
  : PyM ReadStatistics unit :=
  fun m =>
    match post m with
    | None => Raised TypeError m
    | Some p =>
        match assoc_get dest p with
        | None => Raised TypeError m
        | Some cs =>
            match nth_error cs i, nth_error record i with
            | Some c, Some r =>
                let o := collect r c in
                let m' := set_post m (Some (assoc_set dest (replace_nth cs i (final_state o)) p)) in
                match o with Ok _ _ => Ok m' tt | Raised e _ => Raised e m' end
            | _, _ => Raised IndexError m
            end
        end
    end.

(** [ReadStatistics.post_trim(dest, record)] *)
Definition post_trim (dest : D) (record : list Read.Sequence) : PyM ReadStatistics unit :=
  m <- get ;;
  match post m with
  | None => ret tt
  | Some p =>
      (if mem dest (map fst p) then ret tt
       else modify (fun m => set_post m (Some (p ++ [(dest, make_collectors m)])))) ;;
      collect_post dest 0 record ;;
      if paired m then collect_post dest 1 record else ret tt
  end.

(** [dict(('read{}'.format(read), stats.finish()) for read, stats in enumerate(cs, 1))] *)
Definition finish_collectors (cs : list ReadStatCollector) : list (string * CollectorStats) :=
  map (fun '(i, c) => (("read" ++ str_of_nat i)%string, collector_finish qual2int c))
      (enumerate 1 cs).

(** The [result] mapping of [ReadStatistics.finish]: the ['pre'] and
    ['post'] entries, [None] when absent. *)
Record StatsResult : Type := mkStatsResult {
  res_pre : option (list (string * CollectorStats));
  res_post : option (list (D * list (string * CollectorStats)))
}.

(** [ReadStatistics.finish()].  In the loop over [self.post.items()] the
    statement [result[post][dest] = dict(...)] evaluates its right-hand side
    and then the target [result[post]], which reads the name [post]: it is
    bound neither locally in [finish] nor at the top level of stats.py, so
    the first destination raises [NameError]. *)
Definition finish (m : ReadStatistics) : Exn + StatsResult :=
  let res_pre := option_map finish_collectors (pre m) in
  match post m with
  | None => inr (mkStatsResult res_pre None)
  | Some [] => inr (mkStatsResult res_pre (Some []))
  | Some (_ :: _) => inl NameError
  end.

(** The contract the spec states for [finish] ("post-trim output: mapping
    from destination id to per-mate finished statistics"), for comparison
    with [finish]. *)
Definition finish_spec (m : ReadStatistics) : StatsResult :=
  mkStatsResult (option_map finish_collectors (pre m))
    (option_map (map (fun '(dest, cs) => (dest, finish_collectors cs))) (post m)).
End ReadStatistics.

(* ------------------------------------------------------------------ *)
(** ** Filters (trim/filters.py) *)

Definition DISCARD : bool := true.
Definition KEEP : bool := false.

(** The filter classes; [Filters] keys its wrappers by class. *)
Inductive FilterType : Type :=
| MergedReadFilter
| TooShortReadFilter
| TooLongReadFilter
| NContentFilter
| UntrimmedFilter
| TrimmedFilter
| NoFilter.

Definition FilterType_eqb (a b : FilterType) : bool :=
  match a, b with
  | MergedReadFilter, MergedReadFilter | TooShortReadFilter, TooShortReadFilter
  | TooLongReadFilter, TooLongReadFilter | NContentFilter, NContentFilter
  | UntrimmedFilter, UntrimmedFilter | TrimmedFilter, TrimmedFilter
  | NoFilter, NoFilter => true
  | _, _ => false
  end.

Lemma FilterType_eqb_spec (a b : FilterType) : reflect (a = b) (FilterType_eqb a b).
Proof. destruct a, b; constructor; congruence. Qed.

#[global] Instance KeyEq_FilterType : KeyEq FilterType :=
  {| keq := FilterType_eqb; keq_spec := FilterType_eqb_spec |}.

(** Filter instances with their constructor arguments. *)
Inductive Filter : Type :=
| MergedReadFilter_obj
| TooShortReadFilter_obj (minimum_length : nat)
| TooLongReadFilter_obj (maximum_length : nat)
| NContentFilter_obj (is_proportion : bool) (cutoff : Q)
| UntrimmedFilter_obj
| TrimmedFilter_obj
| NoFilter_obj.

(** [NContentFilter.__init__(count)]: [assert count >= 0]. *)
Definition NContentFilter_new (count : Q) : Exn + Filter :=
  if Qle_bool 0 count
  then inr (NContentFilter_obj (negb (Qle_bool 1 count)) count)
  else inl AssertionError.

(** A call [filter_type(args...)] as [FilterFactory.__call__] makes it:
    the class with its constructor argument. *)
Inductive FilterCall : Type :=
| MergedReadFilter_call
| TooShortReadFilter_call (minimum_length : nat)
| TooLongReadFilter_call (maximum_length : nat)
| NContentFilter_call (count : Q)
| UntrimmedFilter_call
| TrimmedFilter_call
| NoFilter_call.

(** The [filter_type] of a call. *)
Definition FilterCall_type (c : FilterCall) : FilterType :=
  match c with
  | MergedReadFilter_call => MergedReadFilter
  | TooShortReadFilter_call _ => TooShortReadFilter
  | TooLongReadFilter_call _ => TooLongReadFilter
  | NContentFilter_call _ => NContentFilter
  | UntrimmedFilter_call => UntrimmedFilter
  | TrimmedFilter_call => TrimmedFilter
  | NoFilter_call => NoFilter
  end.

(** [filter_type(args...)]: only [NContentFilter.__init__] can raise. *)
Definition filter_new (c : FilterCall) : Exn + Filter :=
  match c with
  | MergedReadFilter_call => inr MergedReadFilter_obj
  | TooShortReadFilter_call minimum_length => inr (TooShortReadFilter_obj minimum_length)
  | TooLongReadFilter_call maximum_length => inr (TooLongReadFilter_obj maximum_length)
  | NContentFilter_call count => NContentFilter_new count
  | UntrimmedFilter_call => inr UntrimmedFilter_obj
  | TrimmedFilter_call => inr TrimmedFilter_obj
  | NoFilter_call => inr NoFilter_obj
  end.

(** [str.lower] on an ASCII symbol. *)
Definition py_lower (a : ascii) : ascii :=
  let n := nat_of_ascii a in
  if (65 <=? n) && (n <=? 90) then ascii_of_nat (n + 32) else a.

(** [read.sequence.lower().count('n')] *)
Definition n_count (read : Read.Sequence) : nat :=
  List.count_occ Ascii.ascii_dec (map py_lower (list_ascii_of_string (Read.sequence read))) "n"%char.

(** [__call__] of each filter class.  A Python number compared or divided
    here is modelled as an exact rational. *)
Definition call_filter (f : Filter) (read : Read.Sequence) : bool :=
  match f with
  | MergedReadFilter_obj => Read.merged read
  | TooShortReadFilter_obj minimum_length => read_len read <? minimum_length
  | TooLongReadFilter_obj maximum_length => maximum_length <? read_len read
  | NContentFilter_obj is_proportion cutoff =>
      let n := n_count read in
      if is_proportion then
        if Nat.eqb (read_len read) 0 then false
        else negb (Qle_bool (inject_Z (Z.of_nat n) / inject_Z (Z.of_nat (read_len read))) cutoff)
      else negb (Qle_bool (inject_Z (Z.of_nat n)) cutoff)
  | UntrimmedFilter_obj => match Read.match_ read with None => true | Some _ => false end
  | TrimmedFilter_obj => match Read.match_ read with None => false | Some _ => true end
  | NoFilter_obj => false
  end.

(** The two wrapper classes. *)
Inductive Policy : Type :=
| SingleWrapper
| PairedWrapper (min_affected : Z).

(** A wrapper holds the filter as a callable, its class and the
    [filtered] counter. *)
Record FilterWrapper : Type := mkFilterWrapper {
  filtered : nat;
  filter : Read.Sequence -> bool;
  policy : Policy
}.

(** [PairedWrapper.__init__(f, min_affected)] *)
Definition PairedWrapper_new (f : Read.Sequence -> bool) (min_affected : Z) : Exn + FilterWrapper :=
  if (min_affected =? 1)%Z || (min_affected =? 2)%Z
  then inr (mkFilterWrapper 0 f (PairedWrapper min_affected))
  else inl ValueError.

Definition SingleWrapper_new (f : Read.Sequence -> bool) : FilterWrapper :=
  mkFilterWrapper 0 f SingleWrapper.

(** [PairedWrapper._filter(read1, read2)]; the second component lists the
    reads the predicate was called on, in order. *)
Definition PairedWrapper_filter (min_affected : Z) (f : Read.Sequence -> bool)
    (read1 : Read.Sequence) (read2 : option Read.Sequence) : bool * list Read.Sequence :=
  let failures := if f read1 then 1%Z else 0%Z in
  let '(failures, evaluated) :=
    if (min_affected - failures =? 1)%Z then
      match read2 with
      | None => ((failures + 1)%Z, [])
      | Some r2 => if f r2 then ((failures + 1)%Z, [r2]) else (failures, [r2])
      end
    else (failures, []) in
  ((min_affected <=? failures)%Z, read1 :: evaluated).

(** [SingleWrapper._filter(read1, read2)] *)
Definition SingleWrapper_filter (f : Read.Sequence -> bool)
    (read1 : Read.Sequence) (read2 : option Read.Sequence) : bool * list Read.Sequence :=
  (f read1, [read1]).

Definition wrapper_filter (w : FilterWrapper) read1 read2 : bool * list Read.Sequence :=
  match policy w with
  | SingleWrapper => SingleWrapper_filter (filter w) read1 read2
  | PairedWrapper m => PairedWrapper_filter m (filter w) read1 read2
  end.

(** [FilterWrapper.__call__(read1, read2)]: the verdict, the wrapper after
    the call and the reads given to the predicate. *)
Definition wrapper_call (w : FilterWrapper) read1 read2
  : bool * FilterWrapper * list Read.Sequence :=
  let '(b, evaluated) := wrapper_filter w read1 read2 in
  if b then (DISCARD, mkFilterWrapper (S (filtered w)) (filter w) (policy w), evaluated)
  else (KEEP, w, evaluated).

(** [FilterFactory(paired, min_affected)(filter_type, args...)]: the filter
    is built first, then wrapped. *)
Definition FilterFactory_call (paired : string) (min_affected : Z) (c : FilterCall) : Exn + FilterWrapper :=
  match filter_new c with
  | inl e => inl e
  | inr fltr =>
      if String.eqb paired "both" then PairedWrapper_new (call_filter fltr) min_affected
      else inr (SingleWrapper_new (call_filter fltr))
  end.

(** [Filters]: the [OrderedDict] from filter class to wrapper. *)
Definition Filters : Type := list (FilterType * FilterWrapper).

(** [Filters.add_filter]: assigning an existing key keeps its position. *)
Definition add_filter (fs : Filters) (ft : FilterType) (w : FilterWrapper) : Filters :=
  assoc_set ft w fs.

(** [Filters.filter(read1, read2)]: the disposition, the wrappers after the
    call and, for each predicate call, the class whose wrapper made it. *)
Fixpoint filters_filter (fs : Filters) read1 read2
  : FilterType * Filters * list (FilterType * Read.Sequence) :=
  match fs with
  | [] => (NoFilter, [], [])
  | (ft, w) :: rest =>
      let '(b, w', ev) := wrapper_call w read1 read2 in
      let calls := map (pair ft) ev in
      if b then (ft, (ft, w') :: rest, calls)
      else let '(dest, rest', calls') := filters_filter rest read1 read2 in
           (dest, (ft, w') :: rest', calls ++ calls')
  end.

(** Filtering a stream of pairs, threading the wrappers' counters. *)
Fixpoint filter_all (fs : Filters) (reads : list (Read.Sequence * option Read.Sequence))
  : list FilterType * Filters :=
  match reads with
  | [] => ([], fs)
  | (r1, r2) :: t =>
      let '(d, fs', _) := filters_filter fs r1 r2 in
      let '(ds, fs'') := filter_all fs' t in
      (d :: ds, fs'')
  end.

(* ------------------------------------------------------------------ *)
(** ** Observations used by the statements below *)

(** [collect] applied to each read in turn; an exception leaves the
    collector as it was at the raise, and the next call starts there. *)
Fixpoint collect_all (c : ReadStatCollector) (reads : list Read.Sequence) : ReadStatCollector :=
  match reads with
  | [] => c
  | r :: t => collect_all (final_state (collect r c)) t
  end.

(** [tables[i][k]] with missing positions and keys read as 0. *)
Definition pos_count {K} `{KeyEq K} (ts : list (CountingDict K)) (i : nat) (k : K) : nat :=
  cd_get (nth i ts []) k.
Definition opt_pos_count {K} `{KeyEq K} (o : option (list (CountingDict K))) i k : nat :=
  match o with None => 0 | Some ts => pos_count ts i k end.
Definition tile_pos_count (o : option (list (NestedDict ascii))) i t k : nat :=
  match o with None => 0 | Some ts => cd_get (nd_get (nth i ts []) t) k end.
Definition tile_seq_count (o : option (NestedDict Z)) t k : nat :=
  match o with None => 0 | Some d => cd_get (nd_get d t) k end.

(** Sum of the counts of a table. *)
Definition cd_total {K} (d : CountingDict K) : nat := fold_right (fun p acc => snd p + acc) 0 d.
Definition opt_total {K} (o : option (CountingDict K)) : nat :=
  match o with None => 0 | Some d => cd_total d end.

(** The quality tables exist exactly as [__init__]/[_init_qualities] leave them. *)
Definition collector_wf (c : ReadStatCollector) : Prop :=
  match qualities c with
  | None => sequence_qualities c = None /\ base_qualities c = None /\
            tile_base_qualities c = None /\ tile_sequence_qualities c = None
  | Some true => sequence_qualities c <> None /\ base_qualities c <> None /\
            (tile_key_regexp c <> None ->
             tile_base_qualities c <> None /\ tile_sequence_qualities c <> None)
  | Some false => True
  end.

(** A key occurs in one of the positional tables. *)
Definition observed (dicts : list (CountingDict ascii)) (k : ascii) : Prop :=
  exists d, In d dicts /\ In k (cd_keys d).

(** A wrapper policy that [PairedWrapper.__init__] accepts. *)
Definition valid_policy (p : Policy) : Prop :=
  match p with SingleWrapper => True | PairedWrapper m => m = 1%Z \/ m = 2%Z end.

(** The predicate calls a wrapper makes, tagged with its class. *)
Definition calls_of (r1 : Read.Sequence) (r2 : option Read.Sequence)
    (e : FilterType * FilterWrapper) : list (FilterType * Read.Sequence) :=
  map (pair (fst e)) (snd (wrapper_filter (snd e) r1 r2)).

(** [filtered += 1] *)
Definition bump (w : FilterWrapper) : FilterWrapper :=
  mkFilterWrapper (S (filtered w)) (filter w) (policy w).

(** Symbols [n] or [N] of a read. *)
Definition count_n_or_N (r : Read.Sequence) : nat :=
  List.length (List.filter (fun a => Ascii.eqb a "n"%char || Ascii.eqb a "N"%char)
                           (list_ascii_of_string (Read.sequence r))).

(** Concrete inputs. *)
Definition read_ACGT_noqual : Read.Sequence :=
  Read.mkSequence "read1" "ACGT" None false None.
Definition read_ACGT : Read.Sequence :=
  Read.mkSequence "read1" "ACGT" (Some "IIII"%string) false None.
Definition read_empty : Read.Sequence :=
  Read.mkSequence "read1" "" (Some ""%string) false None.
(** [re.compile("T(.)")]: a name starting with [T] captures its next symbol. *)
Definition tile_rx : Regexp :=
  fun name => if String.prefix "T" name then Some (String.substring 1 1 name) else None.
(** The Sanger quality offset, for concrete outputs only. *)
Definition phred33 (a : ascii) : Z := (Z.of_nat (nat_of_ascii a) - 33)%Z.

(* ------------------------------------------------------------------ *)
(** ** Further entry points and observations *)

(** The exception an outcome raised, if any. *)
Definition outcome_exn {S A} (o : Outcome S A) : option Exn :=
  match o with Ok _ _ => None | Raised e _ => Some e end.

(** The reads of a stream with a given length, and the non-empty ones. *)
Definition reads_of_len (reads : list Read.Sequence) (n : nat) : nat :=
  List.length (List.filter (fun r => Nat.eqb (read_len r) n) reads).
Definition nonempty_reads (reads : list Read.Sequence) : nat :=
  List.length (List.filter (fun r => negb (Nat.eqb (read_len r) 0)) reads).

(** 1 when entry [i] of the [zip(seq, quals)] loop has [k] in the component
    selected by [sel], else 0. *)
Definition zip_hit (ps : list (ascii * ascii)) (sel : ascii * ascii -> ascii) (i : nat) (k : ascii)
  : nat :=
  match nth_error ps i with
  | Some p => if Ascii.eqb (sel p) k then 1 else 0
  | None => 0
  end.

(** What [_init_qualities] and the constructor leave: quality tables exist
    exactly while [self.qualities] is true, tile tables exactly while tiles
    are tracked. *)
Definition collector_inv (c : ReadStatCollector) : Prop :=
  max_read_len c = 0 /\
  (truthy_bool (qualities c) = true ->
     sequence_qualities c <> None /\ base_qualities c <> None) /\
  (truthy_bool (qualities c) = false ->
     sequence_qualities c = None /\ base_qualities c = None) /\
  (track_tiles c = true ->
     tile_base_qualities c <> None /\ tile_sequence_qualities c <> None) /\
  (track_tiles c = false ->
     tile_base_qualities c = None /\ tile_sequence_qualities c = None).

(** [FilterWrapper.name] for a wrapper around an instance of the class: the
    class attribute [name] where there is one, else [__class__.__name__]. *)
Definition filter_type_name (ft : FilterType) : string :=
  match ft with
  | MergedReadFilter => "MergedReadFilter"
  | TooShortReadFilter => "too_short"
  | TooLongReadFilter => "too_long"
  | NContentFilter => "too_many_n"
  | UntrimmedFilter => "UntrimmedFilter"
  | TrimmedFilter => "TrimmedFilter"
  | NoFilter => "NoFilter"
  end.

(** [Filters.add_filter(filter_type, args...)] with the [FilterFactory]
    ([paired], [min_affected]); an exception of the factory leaves the chain
    as it was. *)
Definition Filters_add_filter (paired : string) (min_affected : Z) (fs : Filters) (c : FilterCall)
  : Exn + Filters :=
  match FilterFactory_call paired min_affected c with
  | inl e => inl e
  | inr w => inr (add_filter fs (FilterCall_type c) w)
  end.

(** [Filters.__contains__] *)
Definition Filters_contains (fs : Filters) (ft : FilterType) : bool := mem ft (map fst fs).

(** [Filters.__getitem__]; [None] is the [KeyError] of the [OrderedDict]. *)
Definition Filters_getitem (fs : Filters) (ft : FilterType) : option FilterWrapper :=
  assoc_get ft fs.

(** [Filters.summarize()]: [dict((f.name, f.summarize()) for f in ...)], each
    [f.summarize()] being [dict(records_filtered=f.filtered)], given here by
    its one value. *)
Definition Filters_summarize (fs : Filters) : list (string * nat) :=
  fold_left (fun acc '(ft, w) => assoc_set (filter_type_name ft) (filtered w) acc) fs [].

(** [post_trim] applied to each (destination, record) in turn. *)
Definition post_trim_all {D} `{KeyEq D} (calls : list (D * list Read.Sequence))
    (m : ReadStatistics) : ReadStatistics :=
  fold_left (fun m '(d, r) => final_state (post_trim d r m)) calls m.

(* ================================================================== *)
(** * Proofs *)

(** Stepping through [PyM] code: unfold the monad and the setters, and
    case on the innermost pending [match] ([add_bases] is handled by its
    own lemmas). *)
Ltac py_simpl :=
  unfold bind, get, modify, ret, raise, init_qualities,
    set_qualities, set_counts, set_bases, set_sequence_qualities, set_base_qualities,
    set_tile_base_qualities, set_tile_sequence_qualities in *;
  cbn [final_state bases max_read_len qualities tile_key_regexp count base_qualities
    sequence_qualities tile_base_qualities tile_sequence_qualities
    sequence_lengths sequence_gc] in *.

Ltac py_split :=
  repeat (py_simpl;
    match goal with
    | |- context [match ?x with _ => _ end] =>
        lazymatch x with
        | context [match _ with _ => _ end] => fail
        | add_bases _ _ _ _ => fail
        | _ => destruct x eqn:?
        end
    end).

Ltac nat_facts :=
  repeat match goal with
  | H : (_ =? _) = true |- _ => apply Nat.eqb_eq in H
  | H : (_ =? _) = false |- _ => apply Nat.eqb_neq in H
  | H : (_ <? _) = true |- _ => apply Nat.ltb_lt in H
  | H : (_ <? _) = false |- _ => apply Nat.ltb_ge in H
  end.

(** ** Positional tables *)

Lemma update_at_length {D} (l : list D) i f l' :
  update_at l i f = Some l' -> List.length l' = List.length l.
Proof.
  revert i l'; induction l as [|x t IH]; intros [|j] l' H; simpl in H; try discriminate.
  - injection H as <-; reflexivity.
  - destruct (update_at t j f) eqn:E; simpl in H; try discriminate.
    injection H as <-; simpl; f_equal; eapply IH; eauto.
Qed.

Lemma extend_app {D} (e : D) ts n :
  extend e ts n = ts ++ repeat e (n - List.length ts).
Proof.
  unfold extend. destruct (0 <? n - List.length ts) eqn:E; [reflexivity|].
  apply Nat.ltb_ge in E. replace (n - List.length ts) with 0 by lia.
  rewrite app_nil_r; reflexivity.
Qed.

Lemma extend_length {D} (e : D) ts n :
  List.length (extend e ts n) = Nat.max (List.length ts) n.
Proof. rewrite extend_app, length_app, repeat_length. lia. Qed.

Lemma nth_extend_empty {D} (e : D) ts n i :
  nth i (extend e ts n) e = nth i ts e.
Proof.
  rewrite extend_app. destruct (Nat.lt_ge_cases i (List.length ts)).
  - apply app_nth1; assumption.
  - rewrite app_nth2 by assumption. rewrite (nth_overflow ts) by assumption.
    destruct (Nat.lt_ge_cases (i - List.length ts) (n - List.length ts)).
    + apply nth_repeat_lt; assumption.
    + apply nth_overflow; rewrite repeat_length; assumption.
Qed.

Lemma add_base_frame i b q t c :
  List.length (bases (final_state (add_base i b q t c))) = List.length (bases c) /\
  max_read_len (final_state (add_base i b q t c)) = max_read_len c.
Proof.
  unfold add_base. py_split; simpl; auto;
  repeat match goal with H : update_at _ _ _ = Some _ |- _ => apply update_at_length in H end;
  auto.
Qed.

Lemma add_bases_frame i ps t c :
  List.length (bases (final_state (add_bases i ps t c))) = List.length (bases c) /\
  max_read_len (final_state (add_bases i ps t c)) = max_read_len c.
Proof.
  revert i c; induction ps as [|[b q] ps IH]; intros i c; simpl; auto.
  unfold bind.
  pose proof (add_base_frame i b (Some q) t c) as [H1 H2].
  destruct (add_base i b (Some q) t c) eqn:E; simpl in *.
  - destruct (IH (S i) s) as [H3 H4]; split; congruence.
  - auto.
Qed.

Lemma collect_bases_length r c :
  List.length (bases (final_state (collect r c))) =
    (if max_read_len c <? read_len r
     then Nat.max (List.length (bases c)) (read_len r) else List.length (bases c)) /\
  max_read_len (final_state (collect r c)) = max_read_len c.
Proof.
  unfold collect, extend_bases, read_len.
  py_split; simpl in *;
  repeat match goal with
  | |- context [final_state (add_bases ?i ?ps ?t ?s)] =>
      destruct (add_bases_frame i ps t s) as [-> ->]
  end;
  simpl; rewrite ?extend_length; auto;
  nat_facts; try (split; [lia|reflexivity]).
Qed.

Lemma collect_all_bases_length c reads :
  max_read_len c = 0 ->
  List.length (bases (collect_all c reads)) =
    fold_left Nat.max (map read_len reads) (List.length (bases c)).
Proof.
  revert c; induction reads as [|r t IH]; intros c H0; simpl; [reflexivity|].
  destruct (collect_bases_length r c) as [HL HM].
  rewrite IH by congruence. f_equal. rewrite HL, H0.
  destruct (0 <? read_len r) eqn:E; nat_facts; lia.
Qed.

Lemma new_collector_fresh q rx :
  max_read_len (ReadStatCollector_new q rx) = 0 /\ bases (ReadStatCollector_new q rx) = [].
Proof.
  unfold ReadStatCollector_new. destruct (truthy_bool q); [|auto].
  unfold init_qualities; simpl. destruct rx; simpl; auto.
Qed.

(** C8: [extend] only appends empty tables (never truncates), so a
    collector's positional base table set never shrinks; after any sequence
    of [collect] calls from a fresh collector its length is the maximum
    read length seen (0 for no read). *)
Theorem bases_length_is_max_read_length :
  (forall (ts : list (CountingDict ascii)) n,
      extend [] ts n = ts ++ repeat [] (n - List.length ts)) /\
  (forall c r, List.length (bases c) <= List.length (bases (final_state (collect r c)))) /\
  (forall q rx reads,
      List.length (bases (collect_all (ReadStatCollector_new q rx) reads)) =
      fold_left Nat.max (map read_len reads) 0).
Proof.
  split; [intros; apply extend_app|split].
  - intros c r. rewrite (proj1 (collect_bases_length r c)).
    destruct (max_read_len c <? read_len r); lia.
  - intros q rx reads. destruct (new_collector_fresh q rx) as [H0 Hb].
    rewrite collect_all_bases_length by assumption. rewrite Hb. reflexivity.
Qed.

(** ** Collector outcomes *)

Lemma pos_count_extend {K} `{KeyEq K} (ts : list (CountingDict K)) n i k :
  pos_count (extend [] ts n) i k = pos_count ts i k.
Proof. unfold pos_count. rewrite nth_extend_empty. reflexivity. Qed.

Lemma tile_pos_count_extend ts n i t k :
  tile_pos_count (Some (extend [] ts n)) i t k = tile_pos_count (Some ts) i t k.
Proof. unfold tile_pos_count. rewrite nth_extend_empty. reflexivity. Qed.

Lemma cd_total_incr {K} `{KeyEq K} (d : CountingDict K) k :
  cd_total (cd_incr d k) = S (cd_total d).
Proof.
  unfold cd_total.
  induction d as [|[k' n] t IH]; simpl; [reflexivity|].
  destruct (keq k k'); simpl; [reflexivity|]. rewrite IH. lia.
Qed.

Lemma pos_count_nil {K} `{KeyEq K} i (k : K) : pos_count [] i k = 0.
Proof. unfold pos_count. destruct i; reflexivity. Qed.

Lemma tile_pos_count_nil i t k : tile_pos_count (Some []) i t k = 0.
Proof. unfold tile_pos_count. destruct i; reflexivity. Qed.

(** C1: for a read with no quality data while quality tracking is
    inactive, [collect] raises [UnboundLocalError] at the per-base loop
    (it reads [quals], bound only in the quality branch), after counting
    the read and without incrementing any position of the base table. *)
Theorem collect_without_qualities_skips_bases (c : ReadStatCollector) (r : Read.Sequence)
  (Hq : truthy_bool (qualities c) = false)
  (Hr : truthy_str (Read.qualities r) = false)
  (Hlen : 0 < read_len r) :
  exists c', collect r c = Raised UnboundLocalError c' /\
    count c' = S (count c) /\
    (forall i k, pos_count (bases c') i k = pos_count (bases c) i k).
Proof.
  destruct c as [mrl cnt sl sg bs rxo q sq bq tbq tsq]; cbn in Hq.
  unfold collect, extend_bases, read_len in *.
  py_split; simpl in *; nat_facts; try congruence; try lia;
  (eexists; split; [reflexivity|]); simpl; split; auto;
  intros; rewrite ?pos_count_extend; reflexivity.
Qed.

(** C2: a read of length 0 makes [collect] raise [ZeroDivisionError] when
    it computes the GC percentage, before any count is taken. *)
Theorem collect_empty_read_raises (c : ReadStatCollector) (r : Read.Sequence)
  (Hlen : read_len r = 0) :
  exists c', collect r c = Raised ZeroDivisionError c' /\
    count c' = count c /\ sequence_gc c' = sequence_gc c /\
    sequence_lengths c' = sequence_lengths c.
Proof.
  destruct c as [mrl cnt sl sg bs rxo q sq bq tbq tsq].
  unfold collect, read_len in *.
  py_split; simpl in *; nat_facts; try congruence; try lia;
  eexists; (split; [reflexivity|]); simpl; auto.
Qed.

(** C3 (amended): with tile tracking on (a tile pattern configured and
    quality tracking active, or activated by this read), a read of non-zero
    length with qualities whose name the pattern does not match makes
    [collect] raise [ValueError]; by then the read is already counted in the
    read count and the length, GC and mean-quality distributions, while no
    positional base, quality or tile count and no per-tile mean-quality
    count has been taken for it. *)
Theorem collect_tile_mismatch_partial (c : ReadStatCollector) (r : Read.Sequence)
  (rx : Regexp) (qs : string)
  (Hrx : tile_key_regexp c = Some rx)
  (Hname : rx (Read.name r) = None)
  (Hquals : Read.qualities r = Some qs)
  (Hq : qualities c = Some true \/ (qualities c = None /\ qs <> ""%string))
  (Hwf : collector_wf c)
  (Hlen : 0 < read_len r) :
  exists c', collect r c = Raised ValueError c' /\
    count c' = S (count c) /\
    cd_total (sequence_lengths c') = S (cd_total (sequence_lengths c)) /\
    cd_total (sequence_gc c') = S (cd_total (sequence_gc c)) /\
    opt_total (sequence_qualities c') = S (opt_total (sequence_qualities c)) /\
    (forall i k, pos_count (bases c') i k = pos_count (bases c) i k) /\
    (forall i k, opt_pos_count (base_qualities c') i k = opt_pos_count (base_qualities c) i k) /\
    (forall i t k, tile_pos_count (tile_base_qualities c') i t k =
                   tile_pos_count (tile_base_qualities c) i t k) /\
    (forall t k, tile_seq_count (tile_sequence_qualities c') t k =
                 tile_seq_count (tile_sequence_qualities c) t k).
Proof.
  destruct c as [mrl cnt sl sg bs rxo q sq bq tbq tsq]; unfold collector_wf in Hwf;
  cbn in Hrx, Hq, Hwf |- *.
  subst rxo. destruct r as [nm sq0 rq mg mt]; cbn in Hname, Hquals |- *. subst rq.
  unfold read_len in Hlen; cbn in Hlen.
  destruct Hq as [-> | [-> Hne]].
  - destruct Hwf as [Hsq [Hbq Ht]]. destruct (Ht ltac:(discriminate)) as [Htb Hts].
    destruct sq as [sq|]; [|congruence]. destruct bq as [bq|]; [|congruence].
    destruct tbq as [tbq|]; [|congruence]. destruct tsq as [tsq|]; [|congruence].
    unfold collect, extend_bases, track_tiles in *.
    py_split; simpl in *; nat_facts; try congruence; try lia;
    (eexists; split; [reflexivity|]);
    cbn [count sequence_lengths sequence_gc sequence_qualities bases base_qualities
         tile_base_qualities tile_sequence_qualities opt_total opt_pos_count];
    rewrite ?cd_total_incr;
    repeat split; intros; rewrite ?pos_count_extend, ?tile_pos_count_extend; reflexivity.
  - destruct Hwf as [-> [-> [-> ->]]].
    assert (Ht : truthy_str (Some qs) = true).
    { unfold truthy_str. destruct (String.eqb_spec qs ""%string); simpl; congruence. }
    unfold collect, extend_bases, track_tiles in *.
    py_split; simpl in *; nat_facts; try congruence; try lia;
    (eexists; split; [reflexivity|]);
    cbn [count sequence_lengths sequence_gc sequence_qualities bases base_qualities
         tile_base_qualities tile_sequence_qualities opt_total opt_pos_count];
    rewrite ?cd_total_incr;
    repeat split; intros;
    rewrite ?pos_count_extend, ?tile_pos_count_extend, ?pos_count_nil, ?tile_pos_count_nil;
    reflexivity.
Qed.

Lemma collect_without_qualities_skips_bases_witness :
  truthy_bool (qualities (ReadStatCollector_new None None)) = false /\
  truthy_str (Read.qualities read_ACGT_noqual) = false /\
  0 < read_len read_ACGT_noqual /\
  exists c', collect read_ACGT_noqual (ReadStatCollector_new None None) = Raised UnboundLocalError c' /\
    count c' = S (count (ReadStatCollector_new None None)) /\
    (forall i k, pos_count (bases c') i k = pos_count (bases (ReadStatCollector_new None None)) i k).
Proof.
  split; [reflexivity|]. split; [reflexivity|]. split; [vm_compute; lia|].
  apply collect_without_qualities_skips_bases; [reflexivity|reflexivity|vm_compute; lia].
Defined.

Lemma collect_empty_read_raises_witness :
  read_len read_empty = 0 /\
  exists c', collect read_empty (ReadStatCollector_new None None) = Raised ZeroDivisionError c' /\
    count c' = count (ReadStatCollector_new None None) /\
    sequence_gc c' = sequence_gc (ReadStatCollector_new None None) /\
    sequence_lengths c' = sequence_lengths (ReadStatCollector_new None None).
Proof.
  split; [reflexivity|].
  apply collect_empty_read_raises; reflexivity.
Defined.

(** C3, as stated, fails: a collector tracking tiles with the pattern
    [T(.)] raises on [read1] (no match), and the read is already counted. *)
Lemma collect_tile_mismatch_not_atomic :
  (exists c', collect read_ACGT (ReadStatCollector_new (Some true) (Some tile_rx))
              = Raised ValueError c') /\
  count (final_state (collect read_ACGT (ReadStatCollector_new (Some true) (Some tile_rx))))
    <> count (ReadStatCollector_new (Some true) (Some tile_rx)).
Proof.
  split.
  - exists (final_state (collect read_ACGT (ReadStatCollector_new (Some true) (Some tile_rx)))).
    vm_compute. reflexivity.
  - vm_compute. discriminate.
Qed.

Lemma collect_tile_mismatch_partial_witness :
  exists c', collect read_ACGT (ReadStatCollector_new (Some true) (Some tile_rx)) = Raised ValueError c' /\
    count c' = S (count (ReadStatCollector_new (Some true) (Some tile_rx))) /\
    cd_total (sequence_lengths c') = S (cd_total (sequence_lengths (ReadStatCollector_new (Some true) (Some tile_rx)))) /\
    cd_total (sequence_gc c') = S (cd_total (sequence_gc (ReadStatCollector_new (Some true) (Some tile_rx)))) /\
    opt_total (sequence_qualities c') = S (opt_total (sequence_qualities (ReadStatCollector_new (Some true) (Some tile_rx)))) /\
    (forall i k, pos_count (bases c') i k = pos_count (bases (ReadStatCollector_new (Some true) (Some tile_rx))) i k) /\
    (forall i k, opt_pos_count (base_qualities c') i k =
                 opt_pos_count (base_qualities (ReadStatCollector_new (Some true) (Some tile_rx))) i k) /\
    (forall i t k, tile_pos_count (tile_base_qualities c') i t k =
                   tile_pos_count (tile_base_qualities (ReadStatCollector_new (Some true) (Some tile_rx))) i t k) /\
    (forall t k, tile_seq_count (tile_sequence_qualities c') t k =
                 tile_seq_count (tile_sequence_qualities (ReadStatCollector_new (Some true) (Some tile_rx))) t k).
Proof.
  apply (collect_tile_mismatch_partial _ _ tile_rx "IIII"%string).
  - reflexivity.
  - reflexivity.
  - reflexivity.
  - left; reflexivity.
  - vm_compute. split; [discriminate|split; [discriminate|]]. intros _; split; discriminate.
  - vm_compute; lia.
Defined.

(** ** Flatten headers *)

Lemma keq_true {K} `{KeyEq K} (x y : K) : keq x y = true <-> x = y.
Proof. destruct (keq_spec x y); split; congruence. Qed.

Lemma mem_In {K} `{KeyEq K} (k : K) l : mem k l = true <-> In k l.
Proof.
  unfold mem. rewrite existsb_exists. split.
  - intros [x [Hx Hk]]. apply keq_true in Hk. subst; assumption.
  - intros Hk. exists k. split; [assumption|]. apply keq_true; reflexivity.
Qed.

Lemma In_set_update {K} `{KeyEq K} (acc ks : list K) k :
  In k (set_update acc ks) <-> In k acc \/ In k ks.
Proof.
  unfold set_update. revert acc; induction ks as [|x t IH]; intros acc; simpl.
  - tauto.
  - rewrite IH. destruct (existsb (keq x) acc) eqn:E.
    + apply (mem_In x acc) in E. split; [tauto|]. intros [?|[<-|?]]; auto.
    + rewrite in_app_iff. simpl. split; [|tauto]. intros [[?|[<-|[]]]|?]; auto.
Qed.

Lemma In_key_fold (dicts : list (CountingDict ascii)) acc k :
  In k (fold_left (fun acc d => set_update acc (cd_keys d)) dicts acc) <->
  In k acc \/ observed dicts k.
Proof.
  unfold observed. revert acc; induction dicts as [|d t IH]; intros acc; simpl.
  - split; [tauto|]. intros [?|[? [[] _]]]. assumption.
  - rewrite IH, In_set_update. split.
    + intros [[?|?]|[d' [? ?]]]; [tauto| |]; right; eauto.
    + intros [?|[d' [[<-|?] ?]]]; [tauto| |]; eauto.
Qed.

Lemma In_insert_by {A} (le : A -> A -> bool) x y l : In x (insert_by le y l) <-> y = x \/ In x l.
Proof.
  induction l as [|h t IH]; simpl; [tauto|].
  destruct (le y h); simpl; [tauto|]. rewrite IH. tauto.
Qed.

Lemma In_sorted_by {A} (le : A -> A -> bool) x l : In x (sorted_by le l) <-> In x l.
Proof.
  unfold sorted_by. induction l as [|h t IH]; simpl; [tauto|].
  rewrite In_insert_by, IH. tauto.
Qed.

(** The key order of [flatten] before the header is built. *)
Lemma flatten_header_shape qual2int dicts dt :
  let keys := fold_left (fun acc d => set_update acc (cd_keys d)) dicts [] in
  fst (flatten qual2int dicts dt) =
  (let keys :=
     if match dt with Some s => String.eqb s "n" | None => false end then
       let acgt := ["A"; "C"; "G"; "T"]%char in
       let N := if mem "N"%char keys then ["N"%char] else [] in
       acgt ++ List.filter (fun k => negb (mem k (acgt ++ N))) keys ++ N
     else sorted_by ascii_le keys in
   if match dt with Some s => String.eqb s "q" | None => false end
   then map (fun k => HQ (qual2int k)) keys else map HK keys).
Proof. reflexivity. Qed.

(** C9, as stated, fails: a table set that only ever saw [N] still
    reports [A] in its bases-ordering header. *)
Lemma flatten_bases_header_unobserved_key :
  In (HK "A"%char) (fst (flatten phred33 [[("N"%char, 1)]] (Some "n"%string))) /\
  ~ observed [[("N"%char, 1)]] "A"%char.
Proof.
  split.
  - vm_compute. left; reflexivity.
  - intros [d [[<-|[]] Hk]]. simpl in Hk. destruct Hk as [Hk|[]]. discriminate.
Qed.

(** ** Paired wrapper *)

(** C4: with both mates present and [min_affected] 1 or 2, the pair is
    discarded iff the predicate holds on at least [min_affected] mates; for
    2, holding on mate 1 only keeps it; for 1, holding on mate 1 discards
    it and the predicate is called on mate 1 only. *)
Theorem paired_filter_threshold (min_affected : Z) (f : Read.Sequence -> bool)
  (read1 read2 : Read.Sequence)
  (Hm : min_affected = 1%Z \/ min_affected = 2%Z) :
  fst (PairedWrapper_filter min_affected f read1 (Some read2)) =
    (min_affected <=? Z.b2z (f read1) + Z.b2z (f read2))%Z /\
  (min_affected = 2%Z -> f read1 = true -> f read2 = false ->
     fst (PairedWrapper_filter min_affected f read1 (Some read2)) = false) /\
  (min_affected = 1%Z -> f read1 = true ->
     PairedWrapper_filter min_affected f read1 (Some read2) = (true, [read1])).
Proof.
  unfold PairedWrapper_filter.
  destruct Hm as [-> | ->]; destruct (f read1) eqn:E1, (f read2) eqn:E2; cbn;
  repeat split; intros; try discriminate; reflexivity.
Qed.

Lemma paired_filter_threshold_witness :
  (2%Z = 1%Z \/ 2%Z = 2%Z) /\
  (fst (PairedWrapper_filter 2 (fun r => Read.merged r) read_ACGT (Some read_ACGT_noqual)) =
    (2 <=? Z.b2z (Read.merged read_ACGT) + Z.b2z (Read.merged read_ACGT_noqual))%Z /\
  (2%Z = 2%Z -> Read.merged read_ACGT = true -> Read.merged read_ACGT_noqual = false ->
     fst (PairedWrapper_filter 2 (fun r => Read.merged r) read_ACGT (Some read_ACGT_noqual)) = false) /\
  (2%Z = 1%Z -> Read.merged read_ACGT = true ->
     PairedWrapper_filter 2 (fun r => Read.merged r) read_ACGT (Some read_ACGT_noqual) = (true, [read_ACGT]))).
Proof.
  split; [right; reflexivity|].
  apply (paired_filter_threshold 2 (fun r => Read.merged r)). right; reflexivity.
Defined.

(** C10: a missing mate 2 counts as a failure when exactly one more failure
    would reach [min_affected]; so with [min_affected = 1] and no mate 2
    the pair is always discarded, whatever the predicate says on mate 1. *)
Theorem paired_filter_missing_mate (min_affected : Z) (f : Read.Sequence -> bool)
  (read1 : Read.Sequence)
  (Hrem : (min_affected - Z.b2z (f read1))%Z = 1%Z) :
  PairedWrapper_filter min_affected f read1 None = (true, [read1]) /\
  (forall g r, PairedWrapper_filter 1 g r None = (true, [r])).
Proof.
  split.
  - unfold PairedWrapper_filter.
    destruct (f read1); cbn in Hrem.
    + replace min_affected with 2%Z by lia. reflexivity.
    + replace min_affected with 1%Z by lia. reflexivity.
  - intros g r. unfold PairedWrapper_filter. destruct (g r); reflexivity.
Qed.

Lemma paired_filter_missing_mate_witness :
  (1 - Z.b2z (Read.merged read_ACGT))%Z = 1%Z /\
  PairedWrapper_filter 1 (fun r => Read.merged r) read_ACGT None = (true, [read_ACGT]) /\
  (forall g r, PairedWrapper_filter 1 g r None = (true, [r])).
Proof.
  split; [reflexivity|].
  apply (paired_filter_missing_mate 1 (fun r => Read.merged r)). reflexivity.
Defined.

(** ** Filter chain *)

Lemma wrapper_call_keep w r1 r2 :
  fst (wrapper_filter w r1 r2) = false ->
  wrapper_call w r1 r2 = (KEEP, w, snd (wrapper_filter w r1 r2)).
Proof.
  unfold wrapper_call. destruct (wrapper_filter w r1 r2) as [b ev]; cbn.
  intros ->; reflexivity.
Qed.

Lemma wrapper_call_discard w r1 r2 :
  fst (wrapper_filter w r1 r2) = true ->
  wrapper_call w r1 r2 = (DISCARD, bump w, snd (wrapper_filter w r1 r2)).
Proof.
  unfold wrapper_call. destruct (wrapper_filter w r1 r2) as [b ev]; cbn.
  intros ->; reflexivity.
Qed.

Lemma filters_filter_keep_prefix (pre rest : Filters) r1 r2 :
  Forall (fun e => fst (wrapper_filter (snd e) r1 r2) = false) pre ->
  filters_filter (pre ++ rest) r1 r2 =
    let '(d, rest', calls) := filters_filter rest r1 r2 in
    (d, pre ++ rest', flat_map (calls_of r1 r2) pre ++ calls).
Proof.
  induction 1 as [|[ft w] pre Hw Hpre IH]; cbn [app flat_map].
  - destruct (filters_filter rest r1 r2) as [[d rest'] calls]; reflexivity.
  - cbn [filters_filter]. cbn in Hw. rewrite (wrapper_call_keep w r1 r2 Hw). cbn.
    rewrite IH. destruct (filters_filter rest r1 r2) as [[d rest'] calls].
    unfold calls_of; cbn. rewrite app_assoc. reflexivity.
Qed.

Lemma always_discard_wrapper n p r1 r2 :
  valid_policy p -> fst (wrapper_filter (mkFilterWrapper n (fun _ => true) p) r1 r2) = true.
Proof.
  destruct p as [|m]; cbn; [reflexivity|].
  intros [-> | ->]; unfold PairedWrapper_filter; cbn; [reflexivity|].
  destruct r2; reflexivity.
Qed.

Lemma filter_all_first_always n t1 t2 p1 w2 reads :
  valid_policy p1 ->
  filter_all [(t1, mkFilterWrapper n (fun _ => true) p1); (t2, w2)] reads =
  (repeat t1 (List.length reads),
   [(t1, mkFilterWrapper (n + List.length reads) (fun _ => true) p1); (t2, w2)]).
Proof.
  intros Hp. revert n; induction reads as [|[r1 r2] t IH]; intros n; cbn [filter_all].
  - rewrite Nat.add_0_r. reflexivity.
  - cbn [filters_filter]. rewrite (wrapper_call_discard _ r1 r2 (always_discard_wrapper n p1 r1 r2 Hp)).
    cbn. unfold bump; cbn. rewrite IH. cbn.
    replace (n + S (List.length t)) with (S n + List.length t) by lia. reflexivity.
Qed.

(** C5: [Filters.filter] scans the wrappers in insertion order and stops at
    the first that discards: the result is its class, only it and the
    (keeping) wrappers before it have called their predicate, its counter
    alone goes up and the later wrappers are untouched; if none discards,
    the result is [NoFilter] and no counter moves.  With an always-discard
    [P1] added before a never-discard [P2], every read goes to [P1] and
    [P2]'s counter stays 0. *)
Theorem filters_filter_first_discard :
  (forall (pre : Filters) ft w (post : Filters) r1 r2,
     Forall (fun e => fst (wrapper_filter (snd e) r1 r2) = false) pre ->
     fst (wrapper_filter w r1 r2) = true ->
     filters_filter (pre ++ (ft, w) :: post) r1 r2 =
       (ft, pre ++ (ft, bump w) :: post, flat_map (calls_of r1 r2) (pre ++ [(ft, w)]))) /\
  (forall (fs : Filters) r1 r2,
     Forall (fun e => fst (wrapper_filter (snd e) r1 r2) = false) fs ->
     filters_filter fs r1 r2 = (NoFilter, fs, flat_map (calls_of r1 r2) fs)) /\
  (forall t1 t2 p1 p2 reads,
     t1 <> t2 -> valid_policy p1 ->
     filter_all (add_filter (add_filter [] t1 (mkFilterWrapper 0 (fun _ => true) p1))
                            t2 (mkFilterWrapper 0 (fun _ => false) p2)) reads =
     (repeat t1 (List.length reads),
      add_filter (add_filter [] t1 (mkFilterWrapper (List.length reads) (fun _ => true) p1))
                 t2 (mkFilterWrapper 0 (fun _ => false) p2))).
Proof.
  split; [|split].
  - intros pre ft w post r1 r2 Hpre Hw.
    rewrite filters_filter_keep_prefix by assumption.
    cbn [filters_filter]. rewrite (wrapper_call_discard w r1 r2 Hw). cbn.
    rewrite flat_map_app. cbn. rewrite app_nil_r. reflexivity.
  - intros fs r1 r2 Hfs.
    rewrite <- (app_nil_r fs) at 1. rewrite filters_filter_keep_prefix by assumption.
    cbn. rewrite !app_nil_r. reflexivity.
  - intros t1 t2 p1 p2 reads Hne Hp.
    unfold add_filter; cbn.
    destruct (FilterType_eqb_spec t2 t1) as [E|_]; [congruence|].
    apply filter_all_first_always; assumption.
Qed.

Lemma filters_filter_first_discard_witness :
  TooShortReadFilter <> NContentFilter /\ valid_policy (PairedWrapper 2) /\
  filter_all (add_filter (add_filter [] TooShortReadFilter
                 (mkFilterWrapper 0 (fun _ => true) (PairedWrapper 2)))
              NContentFilter (mkFilterWrapper 0 (fun _ => false) SingleWrapper))
             [(read_ACGT, None); (read_ACGT, Some read_empty)] =
  (repeat TooShortReadFilter 2,
   add_filter (add_filter [] TooShortReadFilter
                 (mkFilterWrapper 2 (fun _ => true) (PairedWrapper 2)))
              NContentFilter (mkFilterWrapper 0 (fun _ => false) SingleWrapper)).
Proof.
  split; [discriminate|]. split; [cbn; right; reflexivity|].
  apply (proj2 (proj2 filters_filter_first_discard)); [discriminate|cbn; right; reflexivity].
Defined.

(** ** N-content filter *)

Lemma py_lower_n (a : ascii) :
  Ascii.eqb (py_lower a) "n"%char = Ascii.eqb a "n"%char || Ascii.eqb a "N"%char.
Proof. destruct a as [[] [] [] [] [] [] [] []]; reflexivity. Qed.

Lemma n_count_n_or_N (r : Read.Sequence) : n_count r = count_n_or_N r.
Proof.
  unfold n_count, count_n_or_N.
  induction (list_ascii_of_string (Read.sequence r)) as [|a t IH]; cbn; [reflexivity|].
  rewrite <- py_lower_n.
  destruct (Ascii.ascii_dec (py_lower a) "n"%char) as [E|E];
  destruct (Ascii.eqb_spec (py_lower a) "n"%char); try congruence; cbn; rewrite IH; reflexivity.
Qed.

Lemma negb_Qle_bool (x y : Q) : negb (Qle_bool x y) = true <-> (y < x)%Q.
Proof.
  destruct (Qle_bool x y) eqn:E; cbn; split; intros H; try discriminate.
  - apply Qle_bool_iff in E. exfalso. apply (Qlt_not_le y x); assumption.
  - apply Qnot_le_lt. intros Hle. apply Qle_bool_iff in Hle. congruence.
  - reflexivity.
Qed.

(** C6: an N-content filter built with a cutoff [c >= 0] discards a read
    exactly when, for [c < 1], the read is non-empty and its count of [n]/[N]
    over its length exceeds [c], and, for [c >= 1], that count exceeds [c];
    so cutoff 1 keeps a read with one N and discards a read with two. *)
Theorem ncontent_filter_decision :
  (forall c : Q, (0 <= c)%Q ->
   exists f, NContentFilter_new c = inr f /\
   forall r, call_filter f r = true <->
     ((c < 1)%Q /\ read_len r <> 0 /\
      (c < inject_Z (Z.of_nat (count_n_or_N r)) / inject_Z (Z.of_nat (read_len r)))%Q) \/
     ((1 <= c)%Q /\ (c < inject_Z (Z.of_nat (count_n_or_N r)))%Q)) /\
  (forall f r, NContentFilter_new 1 = inr f ->
     (count_n_or_N r = 1 -> call_filter f r = false) /\
     (count_n_or_N r = 2 -> call_filter f r = true)).
Proof.
  split.
  - intros c Hc. unfold NContentFilter_new.
    replace (Qle_bool 0 c) with true by (symmetry; apply Qle_bool_iff; assumption).
    eexists; split; [reflexivity|]. intros r.
    unfold call_filter. rewrite n_count_n_or_N.
    destruct (Qle_bool 1 c) eqn:E1; cbn [negb].
    + apply Qle_bool_iff in E1. rewrite negb_Qle_bool. split.
      * intros H; right; split; assumption.
      * intros [[Hlt _]|[_ H]]; [|assumption].
        exfalso. apply (Qlt_not_le c 1); assumption.
    + assert (Hlt : (c < 1)%Q).
      { apply Qnot_le_lt. intros Hle. apply Qle_bool_iff in Hle. congruence. }
      destruct (Nat.eqb_spec (read_len r) 0) as [Hz|Hz].
      * split; [discriminate|]. intros [[_ [Hn _]]|[Hle _]]; [contradiction|].
        exfalso. apply (Qlt_not_le c 1); assumption.
      * rewrite negb_Qle_bool. split.
        -- intros H; left; repeat split; assumption.
        -- intros [[_ [_ H]]|[Hle _]]; [assumption|].
           exfalso. apply (Qlt_not_le c 1); assumption.
  - intros f r Hf. vm_compute in Hf. injection Hf as <-.
    unfold call_filter. rewrite n_count_n_or_N. cbn [negb].
    split; intros ->; reflexivity.
Qed.

Lemma ncontent_filter_decision_witness :
  (0 <= 1)%Q /\ NContentFilter_new 1 = inr (NContentFilter_obj false 1) /\
  call_filter (NContentFilter_obj false 1) (Read.mkSequence "r" "ANGT" None false None) = false /\
  call_filter (NContentFilter_obj false 1) (Read.mkSequence "r" "ANNT" None false None) = true /\
  (exists f, NContentFilter_new (1 # 10) = inr f /\
     call_filter f (Read.mkSequence "r" "ACGTNACGTN" None false None) = true).
Proof.
  split; [vm_compute; discriminate|].
  split; [reflexivity|].
  pose proof (proj2 ncontent_filter_decision (NContentFilter_obj false 1)
                (Read.mkSequence "r" "ANGT" None false None) eq_refl) as [H1 _].
  pose proof (proj2 ncontent_filter_decision (NContentFilter_obj false 1)
                (Read.mkSequence "r" "ANNT" None false None) eq_refl) as [_ H2].
  split; [apply H1; reflexivity|]. split; [apply H2; reflexivity|].
  destruct (proj1 ncontent_filter_decision (1 # 10) ltac:(vm_compute; discriminate))
    as [f [Hf Hiff]].
  exists f. split; [exact Hf|]. apply Hiff. left.
  split; [reflexivity|]. split; [discriminate|reflexivity].
Defined.

(** ** Manager finish *)

(** C7: as soon as the manager has a post-trim destination,
    [ReadStatistics.finish] raises [NameError] (it indexes [result[post]]
    with the unbound name [post]), instead of returning the per-destination
    mapping the spec describes, which [finish_spec] builds. *)
Theorem finish_post_name_error {D : Type} `{KeyEq D} (qual2int : ascii -> Z)
  (m : ReadStatistics (D := D))
  (Hpost : exists item rest, post m = Some (item :: rest)) :
  finish qual2int m = inl NameError /\
  res_post (finish_spec qual2int m) =
    option_map (map (fun '(dest, cs) => (dest, finish_collectors qual2int cs))) (post m).
Proof.
  destruct Hpost as [item [rest Hp]]. unfold finish, finish_spec. rewrite Hp.
  split; reflexivity.
Qed.

(** [ReadStatistics('post', False)] after one kept read for destination ["d"]. *)
Definition stats_one_post : ReadStatistics (D := string) :=
  final_state (post_trim "d"%string [read_ACGT]
                 (ReadStatistics_new "post" false (None, None))).

Lemma finish_post_name_error_witness :
  (exists item rest, post stats_one_post = Some (item :: rest)) /\
  finish phred33 stats_one_post = inl NameError /\
  res_post (finish_spec phred33 stats_one_post) =
    option_map (map (fun '(dest, cs) => (dest, finish_collectors phred33 cs))) (post stats_one_post).
Proof.
  assert (Hp : exists item rest, post stats_one_post = Some (item :: rest)).
  { vm_compute. do 2 eexists. reflexivity. }
  split; [exact Hp|].
  apply finish_post_name_error. exact Hp.
Defined.

(* ================================================================== *)
(** * Further properties of the code *)


Lemma assoc_get_set {K B} `{KeyEq K} (k k' : K) (v : B) l :
  assoc_get k' (assoc_set k v l) = if keq k' k then Some v else assoc_get k' l.
Proof.
  induction l as [|[k0 v0] t IH]; simpl.
  - reflexivity.
  - destruct (keq_spec k k0) as [<-|Hne]; simpl.
    + destruct (keq k' k); reflexivity.
    + rewrite IH. destruct (keq_spec k' k0), (keq_spec k' k); congruence.
Qed.

Lemma assoc_set_keys {K B} `{KeyEq K} (k : K) (v : B) l :
  map fst (assoc_set k v l) = if mem k (map fst l) then map fst l else map fst l ++ [k].
Proof.
  unfold mem. induction l as [|[k0 v0] t IH]; simpl; [reflexivity|].
  destruct (keq k k0) eqn:E; simpl; [reflexivity|].
  rewrite IH. destruct (existsb (keq k) (map fst t)); reflexivity.
Qed.


(** X10: [Filters.add_filter] stores the wrapper under its filter type, so [__getitem__] then returns it; other lookups are unchanged, [__contains__] adds exactly the new type, and the chain keeps its order, a new type going last and a re-added type keeping its place. *)
Theorem Filters_add_filter_lookup (fs : Filters) (ft : FilterType) (w : FilterWrapper) :
  Filters_getitem (add_filter fs ft w) ft = Some w /\
  (forall ft', ft' <> ft -> Filters_getitem (add_filter fs ft w) ft' = Filters_getitem fs ft') /\
  (forall ft', Filters_contains (add_filter fs ft w) ft' =
               FilterType_eqb ft' ft || Filters_contains fs ft') /\
  map fst (add_filter fs ft w) =
    (if Filters_contains fs ft then map fst fs else map fst fs ++ [ft]).
Proof.
  unfold Filters_getitem, Filters_contains, add_filter.
  split; [|split; [|split]].
  - rewrite assoc_get_set. destruct (keq_spec ft ft); congruence.
  - intros ft' Hne. rewrite assoc_get_set. destruct (keq_spec ft' ft); congruence.
  - intros ft'. rewrite assoc_set_keys. unfold mem.
    destruct (existsb (keq ft) (map fst fs)) eqn:E.
    + destruct (FilterType_eqb_spec ft' ft) as [->|]; simpl; [exact E|reflexivity].
    + rewrite existsb_app. simpl. rewrite orb_false_r, orb_comm. reflexivity.
  - apply assoc_set_keys.
Qed.

(** X11: [Filters.add_filter] builds the filter first: [NContentFilter]
    with a negative count raises [AssertionError] and no other construction
    raises.  A built filter is then wrapped: the call raises [ValueError]
    exactly for paired ["both"] with a [min_affected] other than 1 or 2, and
    otherwise stores under the filter's type a fresh wrapper with counter 0,
    a [PairedWrapper] for ["both"] and a [SingleWrapper] otherwise.  An
    exception leaves the chain unchanged. *)
Theorem Filters_add_filter_factory (paired : string) (min_affected : Z) (fs : Filters) (c : FilterCall) :
  match filter_new c with
  | inl e =>
      Filters_add_filter paired min_affected fs c = inl e /\ e = AssertionError /\
      exists count, c = NContentFilter_call count /\ (count < 0)%Q
  | inr fltr =>
      match Filters_add_filter paired min_affected fs c with
      | inl e => e = ValueError /\ String.eqb paired "both" = true /\
                 ~ (min_affected = 1%Z \/ min_affected = 2%Z)
      | inr fs' =>
          Filters_getitem fs' (FilterCall_type c) =
            Some (mkFilterWrapper 0 (call_filter fltr)
                    (if String.eqb paired "both" then PairedWrapper min_affected else SingleWrapper)) /\
          map fst fs' = (if Filters_contains fs (FilterCall_type c) then map fst fs
                         else map fst fs ++ [FilterCall_type c]) /\
          (String.eqb paired "both" = true -> min_affected = 1%Z \/ min_affected = 2%Z)
      end
  end.
Proof.
  unfold Filters_add_filter, FilterFactory_call.
  destruct (filter_new c) as [e|fltr] eqn:Ec.
  - split; [reflexivity|].
    destruct c as [| | |count_q| | |]; simpl in Ec; try discriminate.
    unfold NContentFilter_new in Ec. destruct (Qle_bool 0 count_q) eqn:Eq; [discriminate|].
    injection Ec as <-. split; [reflexivity|]. exists count_q. split; [reflexivity|].
    apply Qnot_le_lt. intros Hle. apply Qle_bool_iff in Hle. congruence.
  - unfold PairedWrapper_new, SingleWrapper_new.
    destruct (String.eqb paired "both") eqn:Ep.
    + destruct ((min_affected =? 1)%Z || (min_affected =? 2)%Z) eqn:Em.
      * destruct (Filters_add_filter_lookup fs (FilterCall_type c)
                    (mkFilterWrapper 0 (call_filter fltr) (PairedWrapper min_affected))) as [H1 [_ [_ H4]]].
        split; [exact H1|split; [exact H4|]]. intros _.
        apply orb_true_iff in Em as [E|E]; apply Z.eqb_eq in E; auto.
      * split; [reflexivity|split; [reflexivity|]].
        apply orb_false_iff in Em as [E1 E2]. apply Z.eqb_neq in E1, E2. tauto.
    + destruct (Filters_add_filter_lookup fs (FilterCall_type c)
                  (mkFilterWrapper 0 (call_filter fltr) SingleWrapper)) as [H1 [_ [_ H4]]].
      split; [exact H1|split; [exact H4|]]. discriminate.
Qed.

Lemma Forall_assoc_set {K B} `{KeyEq K} (P : B -> Prop) (k : K) (v : B) l :
  P v -> Forall (fun p => P (snd p)) l -> Forall (fun p => P (snd p)) (assoc_set k v l).
Proof.
  intros Hv Hl. induction Hl as [|[k0 v0] t Hp Ht IH]; simpl; [constructor; [exact Hv|constructor]|].
  destruct (keq k k0); constructor; auto.
Qed.

Lemma single_wrapper_call_mate w r1 r2 :
  policy w = SingleWrapper -> wrapper_call w r1 r2 = wrapper_call w r1 None.
Proof. unfold wrapper_call, wrapper_filter. intros ->. reflexivity. Qed.

Lemma wrapper_call_policy w r1 r2 : policy (snd (fst (wrapper_call w r1 r2))) = policy w.
Proof.
  unfold wrapper_call. destruct (wrapper_filter w r1 r2) as [[|] ev]; reflexivity.
Qed.

Lemma filters_filter_single fs r1 r2 :
  Forall (fun p => policy (snd p) = SingleWrapper) fs ->
  filters_filter fs r1 r2 = filters_filter fs r1 None /\
  Forall (fun p => policy (snd p) = SingleWrapper) (snd (fst (filters_filter fs r1 r2))).
Proof.
  intros Hs. induction Hs as [|[ft w] t Hw Ht IH]; simpl in *; [split; [reflexivity|constructor]|].
  rewrite (single_wrapper_call_mate w r1 r2 Hw).
  pose proof (wrapper_call_policy w r1 None) as Hpol.
  destruct (wrapper_call w r1 None) as [[b w'] ev]. simpl in Hpol.
  destruct b.
  - split; [reflexivity|]. simpl. constructor; [simpl; congruence|exact Ht].
  - destruct IH as [IH1 IH2]. rewrite IH1 in IH2 |- *.
    destruct (filters_filter t r1 None) as [[d rest'] calls']. simpl in *.
    split; [reflexivity|]. constructor; [simpl; congruence|exact IH2].
Qed.

(** X12: outside paired ["both"], every wrapper the factory builds is a
    [SingleWrapper] with counter 0, and adding filters keeps a chain of
    single wrappers.  On such a chain the mates play no part: filtering a
    pair gives the same disposition, counters and predicate calls as
    filtering its first read alone, for one pair and for a whole stream. *)
Theorem single_wrapper_ignores_mate (paired : string) (min_affected : Z)
  (Hp : String.eqb paired "both" = false) :
  (forall c w, FilterFactory_call paired min_affected c = inr w ->
     filtered w = 0 /\ policy w = SingleWrapper) /\
  (forall fs c fs', Forall (fun p => policy (snd p) = SingleWrapper) fs ->
     Filters_add_filter paired min_affected fs c = inr fs' ->
     Forall (fun p => policy (snd p) = SingleWrapper) fs') /\
  (forall fs r1 r2, Forall (fun p => policy (snd p) = SingleWrapper) fs ->
     filters_filter fs r1 r2 = filters_filter fs r1 None) /\
  (forall fs reads, Forall (fun p => policy (snd p) = SingleWrapper) fs ->
     filter_all fs reads = filter_all fs (map (fun p => (fst p, None)) reads)).
Proof.
  assert (Hf : forall c w, FilterFactory_call paired min_affected c = inr w ->
             filtered w = 0 /\ policy w = SingleWrapper).
  { intros c w. unfold FilterFactory_call. rewrite Hp.
    destruct (filter_new c); [discriminate|]. intros E. injection E as <-. split; reflexivity. }
  split; [exact Hf|split; [|split]].
  - intros fs c fs' Hs. unfold Filters_add_filter.
    destruct (FilterFactory_call paired min_affected c) as [e|w] eqn:E; [discriminate|].
    intros E'. injection E' as <-. unfold add_filter.
    apply (Forall_assoc_set (fun w => policy w = SingleWrapper)); [apply (Hf c w E)|exact Hs].
  - intros fs r1 r2 Hs. apply (filters_filter_single fs r1 r2 Hs).
  - intros fs reads. revert fs. induction reads as [|[r1 r2] t IH]; intros fs Hs; simpl; [reflexivity|].
    destruct (filters_filter_single fs r1 r2 Hs) as [E Hs'].
    rewrite <- E. destruct (filters_filter fs r1 r2) as [[d fs'] calls]. simpl in Hs'.
    rewrite (IH fs' Hs'). reflexivity.
Qed.

(** X14: a chain whose first two filters were added as [UntrimmedFilter]
    then [TrimmedFilter], with single-end wrappers or paired ["both"] with
    [min_affected] 1, discards every pair, always to one of these two
    filters and without calling any later filter.  With single-end wrappers
    an untrimmed first read (no adapter match) goes to [UntrimmedFilter] and
    a trimmed one to [TrimmedFilter]. *)
Theorem untrimmed_trimmed_chain_discards_all (paired : string) (min_affected : Z)
    (fs1 fs2 rest : Filters) (r1 : Read.Sequence) (r2 : option Read.Sequence)
  (H1 : Filters_add_filter paired min_affected [] UntrimmedFilter_call = inr fs1)
  (H2 : Filters_add_filter paired min_affected fs1 TrimmedFilter_call = inr fs2)
  (Hm : String.eqb paired "both" = false \/ min_affected = 1%Z) :
  (fst (fst (filters_filter (fs2 ++ rest) r1 r2)) = UntrimmedFilter \/
   fst (fst (filters_filter (fs2 ++ rest) r1 r2)) = TrimmedFilter) /\
  Forall (fun p => fst p = UntrimmedFilter \/ fst p = TrimmedFilter)
    (snd (filters_filter (fs2 ++ rest) r1 r2)) /\
  (String.eqb paired "both" = false ->
   fst (fst (filters_filter (fs2 ++ rest) r1 r2)) =
     match Read.match_ r1 with None => UntrimmedFilter | Some _ => TrimmedFilter end).
Proof.
  unfold Filters_add_filter, FilterFactory_call, PairedWrapper_new in H1, H2. simpl in H1, H2.
  destruct (String.eqb paired "both") eqn:Ep.
  - destruct Hm as [Hm| ->]; [discriminate|]. simpl in H1.
    injection H1 as <-. simpl in H2. injection H2 as <-.
    simpl. unfold wrapper_call, wrapper_filter, PairedWrapper_filter. simpl.
    destruct (Read.match_ r1); [destruct r2 as [r2|]; [destruct (Read.match_ r2)|]|]; simpl;
      (split; [first [left; reflexivity | right; reflexivity]|split;
        [repeat (apply Forall_cons; [simpl; auto|]); apply Forall_nil|discriminate]]).
  - injection H1 as <-. simpl in H2. injection H2 as <-.
    simpl. unfold wrapper_call, wrapper_filter, SingleWrapper_filter. simpl.
    destruct (Read.match_ r1); simpl;
      (split; [first [left; reflexivity | right; reflexivity]|split;
        [repeat (apply Forall_cons; [simpl; auto|]); apply Forall_nil|reflexivity]]).
Qed.






Lemma filters_filter_keys fs r1 r2 :
  map fst (snd (fst (filters_filter fs r1 r2))) = map fst fs.
Proof.
  induction fs as [|[ft w] t IH]; simpl; [reflexivity|].
  destruct (wrapper_call w r1 r2) as [[b w'] ev].
  destruct b; simpl; [reflexivity|].
  destruct (filters_filter t r1 r2) as [[d rest'] calls']; simpl in *. rewrite IH; reflexivity.
Qed.


Lemma wrapper_call_filtered w r1 r2 :
  filtered (snd (fst (wrapper_call w r1 r2))) =
    if fst (fst (wrapper_call w r1 r2)) then S (filtered w) else filtered w.
Proof. unfold wrapper_call. destruct (wrapper_filter w r1 r2) as [[|] ev]; reflexivity. Qed.

Lemma filters_filter_total fs r1 r2 (Hno : ~ In NoFilter (map fst fs)) :
  cd_total (map (fun p => (fst p, filtered (snd p))) (snd (fst (filters_filter fs r1 r2)))) =
  cd_total (map (fun p => (fst p, filtered (snd p))) fs) +
    (if FilterType_eqb (fst (fst (filters_filter fs r1 r2))) NoFilter then 0 else 1).
Proof.
  induction fs as [|[ft w] t IH]; simpl; [reflexivity|].
  simpl in Hno.
  pose proof (wrapper_call_filtered w r1 r2) as Hw.
  destruct (wrapper_call w r1 r2) as [[b w'] ev]; simpl in Hw.
  destruct b; simpl.
  - rewrite Hw. destruct ft; simpl; try lia. exfalso; apply Hno; left; reflexivity.
  - specialize (IH ltac:(tauto)).
    destruct (filters_filter t r1 r2) as [[d rest'] calls']; simpl in *. rewrite IH, Hw. lia.
Qed.

Lemma filter_all_keys fs reads : map fst (snd (filter_all fs reads)) = map fst fs.
Proof.
  revert fs; induction reads as [|[r1 r2] t IH]; intros fs; simpl; [reflexivity|].
  pose proof (filters_filter_keys fs r1 r2) as Hk.
  destruct (filters_filter fs r1 r2) as [[d fs'] ev]; simpl in *.
  specialize (IH fs'). destruct (filter_all fs' t) as [ds fs'']; simpl in *. congruence.
Qed.

Lemma filter_all_total fs reads (Hno : ~ In NoFilter (map fst fs)) :
  cd_total (map (fun p => (fst p, filtered (snd p))) (snd (filter_all fs reads))) =
  cd_total (map (fun p => (fst p, filtered (snd p))) fs) +
    List.length (List.filter (fun d => negb (FilterType_eqb d NoFilter)) (fst (filter_all fs reads))).
Proof.
  revert fs Hno; induction reads as [|[r1 r2] t IH]; intros fs Hno; simpl; [lia|].
  pose proof (filters_filter_keys fs r1 r2) as Hk.
  pose proof (filters_filter_total fs r1 r2 Hno) as Ht.
  destruct (filters_filter fs r1 r2) as [[d fs'] ev]; simpl in *.
  specialize (IH fs' ltac:(rewrite Hk; exact Hno)).
  destruct (filter_all fs' t) as [ds fs'']; simpl in *.
  rewrite IH, Ht. destruct (FilterType_eqb d NoFilter); simpl; lia.
Qed.

Lemma assoc_set_fresh {K B} `{KeyEq K} (k : K) (v : B) l :
  ~ In k (map fst l) -> assoc_set k v l = l ++ [(k, v)].
Proof.
  induction l as [|[k0 v0] t IH]; simpl; intros Hn; [reflexivity|].
  destruct (keq_spec k k0) as [->|]; [exfalso; apply Hn; left; reflexivity|].
  rewrite IH by tauto. reflexivity.
Qed.

Lemma filter_type_name_inj a b : filter_type_name a = filter_type_name b -> a = b.
Proof. destruct a, b; simpl; congruence. Qed.

Lemma Filters_summarize_map fs (Hnd : NoDup (map fst fs)) :
  Filters_summarize fs = map (fun p => (filter_type_name (fst p), filtered (snd p))) fs.
Proof.
  unfold Filters_summarize.
  assert (G : forall acc, (forall p, In p fs -> ~ In (filter_type_name (fst p)) (map fst acc)) ->
    fold_left (fun acc '(ft, w) => assoc_set (filter_type_name ft) (filtered w) acc) fs acc =
    acc ++ map (fun p => (filter_type_name (fst p), filtered (snd p))) fs).
  { induction fs as [|[ft w] t IH]; intros acc Hacc; simpl; [rewrite app_nil_r; reflexivity|].
    inversion Hnd as [|? ? Hnin Hnd']; subst.
    rewrite assoc_set_fresh by (apply (Hacc (ft, w)); left; reflexivity).
    rewrite IH; [rewrite <- app_assoc; reflexivity|exact Hnd'|].
    intros [ft' w'] Hin. rewrite map_app, in_app_iff. simpl. intros [H1|[H2|[]]].
    - apply (Hacc (ft', w')); [right; assumption|assumption].
    - apply filter_type_name_inj in H2. subst. apply Hnin. apply (in_map fst _ _ Hin). }
  rewrite G; [reflexivity|]. intros p _ [].
Qed.

(** X13: for a chain of distinct filter types not containing [NoFilter], after filtering a stream of reads [Filters.summarize] reports one entry per filter, named after it and in chain order, and the counters have grown in total by the number of reads routed to a filter other than [NoFilter]. *)
Theorem filters_summarize_counts (fs : Filters) (reads : list (Read.Sequence * option Read.Sequence))
  (Hnd : NoDup (map fst fs)) (Hno : ~ In NoFilter (map fst fs)) :
  map fst (Filters_summarize (snd (filter_all fs reads))) = map filter_type_name (map fst fs) /\
  cd_total (Filters_summarize (snd (filter_all fs reads))) =
    cd_total (Filters_summarize fs) +
    List.length (List.filter (fun d => negb (FilterType_eqb d NoFilter)) (fst (filter_all fs reads))).
Proof.
  pose proof (filter_all_keys fs reads) as Hk.
  assert (Hnd' : NoDup (map fst (snd (filter_all fs reads)))) by (rewrite Hk; exact Hnd).
  rewrite !Filters_summarize_map by assumption.
  split.
  - rewrite map_map. simpl. rewrite <- Hk, map_map. reflexivity.
  - pose proof (filter_all_total fs reads Hno) as Ht.
    assert (E : forall l : Filters, cd_total (map (fun p => (filter_type_name (fst p), filtered (snd p))) l) =
                 cd_total (map (fun p => (fst p, filtered (snd p))) l)).
    { induction l as [|? ? IH]; simpl; [reflexivity|]. unfold cd_total in *; simpl. rewrite IH. reflexivity. }
    rewrite !E. exact Ht.
Qed.




Lemma add_base_scalars i b q t c :
  let c' := final_state (add_base i b q t c) in
  max_read_len c' = max_read_len c /\ count c' = count c /\
  sequence_lengths c' = sequence_lengths c /\ sequence_gc c' = sequence_gc c /\
  tile_key_regexp c' = tile_key_regexp c /\ qualities c' = qualities c /\
  sequence_qualities c' = sequence_qualities c /\
  tile_sequence_qualities c' = tile_sequence_qualities c /\
  (base_qualities c' = None <-> base_qualities c = None) /\
  (tile_base_qualities c' = None <-> tile_base_qualities c = None).
Proof.
  destruct c as [mrl cnt sl sg bs rxo qq sq bq tbq tsq].
  unfold add_base. py_split; simpl; repeat split; try congruence.
Qed.

Lemma add_bases_scalars i ps t c :
  let c' := final_state (add_bases i ps t c) in
  max_read_len c' = max_read_len c /\ count c' = count c /\
  sequence_lengths c' = sequence_lengths c /\ sequence_gc c' = sequence_gc c /\
  tile_key_regexp c' = tile_key_regexp c /\ qualities c' = qualities c /\
  sequence_qualities c' = sequence_qualities c /\
  tile_sequence_qualities c' = tile_sequence_qualities c /\
  (base_qualities c' = None <-> base_qualities c = None) /\
  (tile_base_qualities c' = None <-> tile_base_qualities c = None).
Proof.
  revert i c; induction ps as [|[b q] ps IH]; intros i c; simpl; [repeat split; auto|].
  unfold bind.
  pose proof (add_base_scalars i b (Some q) t c) as H.
  destruct (add_base i b (Some q) t c) eqn:E; simpl in *.
  - pose proof (IH (S i) s) as H'. simpl in H'. intuition congruence.
  - exact H.
Qed.

Ltac ab_scalars :=
  repeat match goal with
  | |- context [final_state (add_bases ?i ?ps ?t ?s)] =>
      let H := fresh "Hab" in
      pose proof (add_bases_scalars i ps t s) as H; cbv zeta in H;
      let c' := fresh "c'" in
      set (c' := final_state (add_bases i ps t s)) in *;
      clearbody c';
      destruct H as (?&?&?&?&?&?&?&?&?&?)
  end.

Lemma collect_scalars r c :
  let c' := final_state (collect r c) in
  max_read_len c' = max_read_len c /\
  tile_key_regexp c' = tile_key_regexp c /\
  count c' = (if read_len r =? 0 then count c else S (count c)) /\
  sequence_lengths c' = (if read_len r =? 0 then sequence_lengths c
                         else cd_incr (sequence_lengths c) (read_len r)) /\
  cd_total (sequence_gc c') = (if read_len r =? 0 then cd_total (sequence_gc c)
                               else S (cd_total (sequence_gc c))) /\
  qualities c' = (if match qualities c with None => true | Some _ => false end
                     && truthy_str (Read.qualities r) then Some true else qualities c).
Proof.
  destruct c as [mrl cnt sl sg bs rxo qq sq bq tbq tsq].
  unfold collect, extend_bases, read_len; cbv zeta.
  py_split; ab_scalars; simpl in *; nat_facts; try lia;
  repeat match goal with H : ?f ?x = _ |- context [?f ?x] => is_var x; rewrite H; clear H end;
  simpl; rewrite ?cd_total_incr; repeat split; try reflexivity; try lia.
Qed.

Lemma cd_get_incr {K} `{KeyEq K} (d : CountingDict K) k k' :
  cd_get (cd_incr d k) k' = cd_get d k' + (if keq k' k then 1 else 0).
Proof.
  induction d as [|[k0 n] t IH]; simpl.
  - destruct (keq k' k); reflexivity.
  - destruct (keq_spec k k0) as [<-|Hne]; simpl.
    + destruct (keq k' k); lia.
    + rewrite IH. destruct (keq_spec k' k0), (keq_spec k' k); subst; try congruence; lia.
Qed.

Lemma new_collector_counts q rx :
  count (ReadStatCollector_new q rx) = 0 /\ sequence_lengths (ReadStatCollector_new q rx) = [] /\
  sequence_gc (ReadStatCollector_new q rx) = [] /\ max_read_len (ReadStatCollector_new q rx) = 0 /\
  tile_key_regexp (ReadStatCollector_new q rx) = rx /\ qualities (ReadStatCollector_new q rx) = q.
Proof.
  unfold ReadStatCollector_new. destruct (truthy_bool q); [|repeat split].
  unfold init_qualities; simpl. destruct rx; simpl; repeat split.
Qed.

Lemma collect_all_counts c reads :
  count (collect_all c reads) = count c + nonempty_reads reads /\
  (forall n, cd_get (sequence_lengths (collect_all c reads)) n =
             cd_get (sequence_lengths c) n + (if n =? 0 then 0 else reads_of_len reads n)) /\
  cd_total (sequence_lengths (collect_all c reads)) = cd_total (sequence_lengths c) + nonempty_reads reads /\
  cd_total (sequence_gc (collect_all c reads)) = cd_total (sequence_gc c) + nonempty_reads reads.
Proof.
  unfold nonempty_reads, reads_of_len.
  revert c; induction reads as [|r t IH]; intros c; simpl.
  - repeat split; intros; try lia. destruct (n =? 0); lia.
  - destruct (IH (final_state (collect r c))) as [H1 [H2 [H3 H4]]].
    destruct (collect_scalars r c) as [_ [_ [E1 [E2 [E3 _]]]]].
    rewrite H1, H3, H4, E1, E3. split; [|split; [|split]].
    + destruct (read_len r =? 0); simpl; lia.
    + intros n. rewrite H2, E2. destruct (read_len r =? 0) eqn:E; simpl.
      * apply Nat.eqb_eq in E. destruct (Nat.eqb_spec n 0); [lia|].
        destruct (Nat.eqb_spec (read_len r) n); [lia|reflexivity].
      * rewrite cd_get_incr. cbn [keq KeyEq_nat].
        destruct (Nat.eqb_spec n 0) as [->|Hn].
        -- apply Nat.eqb_neq in E. destruct (Nat.eqb_spec 0 (read_len r)); lia.
        -- rewrite (Nat.eqb_sym n (read_len r)). destruct (read_len r =? n); simpl; lia.
    + rewrite E2. destruct (read_len r =? 0); simpl; [|rewrite cd_total_incr]; lia.
    + destruct (read_len r =? 0); simpl; lia.
Qed.

(** X1: after [collect] over a stream of reads (none raising), [count] is the number of non-empty reads, the length histogram holds for each length n > 0 the number of reads of length n (and nothing for 0), and both the length and the GC histograms total [count]. *)
Theorem collect_all_length_histogram (q : option bool) (rx : option Regexp) (reads : list Read.Sequence) :
  let c := collect_all (ReadStatCollector_new q rx) reads in
  count c = nonempty_reads reads /\
  (forall n, cd_get (sequence_lengths c) n = if n =? 0 then 0 else reads_of_len reads n) /\
  cd_total (sequence_lengths c) = count c /\
  cd_total (sequence_gc c) = count c.
Proof.
  cbv zeta. destruct (new_collector_counts q rx) as [C0 [L0 [G0 _]]].
  destruct (collect_all_counts (ReadStatCollector_new q rx) reads) as [H1 [H2 [H3 H4]]].
  rewrite H1, H3, H4, C0, L0, G0. split; [reflexivity|split; [|split; reflexivity]].
  intros n. rewrite H2, L0. reflexivity.
Qed.

Ltac opt_iff :=
  repeat match goal with
  | H : ?a = None <-> None = None |- _ =>
      assert (a = None) by (apply H; reflexivity); clear H
  | H : ?a = None <-> Some _ = None |- _ =>
      assert (a <> None) by (let E := fresh in intro E; apply H in E; discriminate); clear H
  end.

Lemma collect_inv r c : collector_inv c -> collector_inv (final_state (collect r c)).
Proof.
  destruct c as [mrl cnt sl sg bs rxo qq sq bq tbq tsq].
  unfold collector_inv, track_tiles; cbn [max_read_len qualities sequence_qualities base_qualities
    tile_base_qualities tile_sequence_qualities tile_key_regexp].
  intros [Hm [Ht [Hf [Htt Htf]]]]. subst mrl.
  destruct qq as [[|]|]; cbn [truthy_bool andb] in Ht, Hf, Htt, Htf;
  [destruct (Ht eq_refl) as [Hsq Hbq]; destruct sq as [sq|]; [|congruence];
   destruct bq as [bq|]; [|congruence]; clear Hf Ht
  |destruct (Hf eq_refl) as [-> ->]; clear Ht Hf
  |destruct (Hf eq_refl) as [-> ->]; clear Ht Hf];
  (destruct rxo as [rx|];
   [try (destruct (Htt eq_refl) as [Htb Hts]; destruct tbq as [tbq|]; [|congruence];
         destruct tsq as [tsq|]; [|congruence]);
    try (destruct (Htf eq_refl) as [-> ->])
   |destruct (Htf eq_refl) as [-> ->]]); clear Htt Htf;
  unfold collect, extend_bases, track_tiles; cbv zeta;
  py_split; ab_scalars; simpl in *; nat_facts; try lia;
  repeat match goal with H : ?f ?x = _ |- context [?f ?x] => is_var x; rewrite H; clear H end;
  simpl in *; opt_iff;
  repeat split; intros; simpl in *; try discriminate; try lia; auto; congruence.
Qed.


Lemma new_collector_inv q rx : collector_inv (ReadStatCollector_new q rx).
Proof.
  unfold ReadStatCollector_new, collector_inv, track_tiles.
  destruct q as [[|]|]; [destruct rx|..]; simpl; repeat split; intros; congruence.
Qed.

Lemma collect_all_inv c reads : collector_inv c -> collector_inv (collect_all c reads).
Proof.
  revert c; induction reads as [|r t IH]; intros c Hc; simpl; [exact Hc|].
  apply IH, collect_inv, Hc.
Qed.

Lemma collect_all_qualities c reads :
  qualities (collect_all c reads) =
    match qualities c with
    | None => if existsb (fun r => truthy_str (Read.qualities r)) reads then Some true else None
    | Some b => Some b
    end.
Proof.
  revert c; induction reads as [|r t IH]; intros c; simpl.
  - destruct (qualities c); reflexivity.
  - rewrite IH. destruct (collect_scalars r c) as [_ [_ [_ [_ [_ E]]]]]. rewrite E.
    destruct (qualities c) as [b|]; simpl; [reflexivity|].
    destruct (truthy_str (Read.qualities r)); simpl; [|reflexivity].
    destruct (existsb _ t); reflexivity.
Qed.

(** X2: collecting a stream of reads keeps the collector's invariant (the quality tables exist exactly when qualities were detected, the tile tables exactly when tiles are tracked) and sets an undetermined [qualities] to [True] exactly when some read carries a non-empty quality string; a given [qualities] is never changed. *)
Theorem collect_all_quality_tracking (q : option bool) (rx : option Regexp) (reads : list Read.Sequence) :
  let c := collect_all (ReadStatCollector_new q rx) reads in
  collector_inv c /\
  qualities c = match q with
                | None => if existsb (fun r => truthy_str (Read.qualities r)) reads
                          then Some true else None
                | Some b => Some b
                end.
Proof.
  cbv zeta. split.
  - apply collect_all_inv, new_collector_inv.
  - rewrite collect_all_qualities. destruct (new_collector_counts q rx) as [_ [_ [_ [_ [_ ->]]]]].
    reflexivity.
Qed.

Lemma length_list_ascii s : List.length (list_ascii_of_string s) = String.length s.
Proof. induction s; simpl; congruence. Qed.

Lemma update_at_some {D} (l : list D) i f :
  i < List.length l -> exists l', update_at l i f = Some l' /\ List.length l' = List.length l.
Proof.
  revert i; induction l as [|x t IH]; intros [|j] Hi; simpl in *; try lia.
  - eexists; split; reflexivity.
  - destruct (IH j ltac:(lia)) as [l' [E L]]. rewrite E. simpl. eexists; split; [reflexivity|].
    simpl; congruence.
Qed.

Lemma add_base_ok i b q t c
  (Hb : i < List.length (bases c))
  (Hq : exists bq, base_qualities c = Some bq /\ i < List.length bq)
  (Ht : truthy_str t = true -> exists tbq, tile_base_qualities c = Some tbq /\ i < List.length tbq) :
  exists c', add_base i b (Some q) t c = Ok c' tt /\
    List.length (bases c') = List.length (bases c) /\
    option_map (@List.length _) (base_qualities c') = option_map (@List.length _) (base_qualities c) /\
    option_map (@List.length _) (tile_base_qualities c') =
      option_map (@List.length _) (tile_base_qualities c).
Proof.
  destruct c as [mrl cnt sl sg bs rxo qq sq bq tbq tsq]; simpl in *.
  destruct Hq as [bq' [-> Hbq]].
  destruct (update_at_some bs i (fun d => cd_incr d b) Hb) as [bs' [Eb Lb]].
  destruct (update_at_some bq' i (fun d => cd_incr d q) Hbq) as [bq'' [Eq Lq]].
  unfold add_base. py_simpl. rewrite Eb. py_simpl. rewrite Eq. py_simpl.
  destruct (truthy_str t) eqn:Et.
  - destruct (Ht eq_refl) as [tbq' [-> Htb]]. destruct t as [s|]; [|discriminate].
    destruct (update_at_some tbq' i (fun d => nd_incr d s q) Htb) as [tbq'' [Et' Lt]].
    py_simpl. rewrite Et'. simpl. eexists; split; [reflexivity|]. simpl. rewrite Lb, Lq, Lt. auto.
  - eexists; split; [reflexivity|]. simpl. rewrite Lb, Lq. auto.
Qed.

Lemma add_bases_ok ps j t c
  (Hb : j + List.length ps <= List.length (bases c))
  (Hq : exists bq, base_qualities c = Some bq /\ j + List.length ps <= List.length bq)
  (Ht : truthy_str t = true ->
        exists tbq, tile_base_qualities c = Some tbq /\ j + List.length ps <= List.length tbq) :
  exists c', add_bases j ps t c = Ok c' tt.
Proof.
  revert j c Hb Hq Ht; induction ps as [|[b q] ps IH]; intros j c Hb Hq Ht; simpl in *.
  - eexists; reflexivity.
  - destruct Hq as [bq [Ebq Lbq]].
    destruct (add_base_ok j b q t c) as [c1 [E1 [L1 [Q1 T1]]]].
    + lia.
    + exists bq; split; [assumption|lia].
    + intros Htr. destruct (Ht Htr) as [tbq [E L]]. exists tbq; split; [assumption|lia].
    + unfold bind. rewrite E1. apply IH.
      * lia.
      * rewrite Ebq in Q1. destruct (base_qualities c1) as [bq1|]; [|discriminate].
        injection Q1 as Q1. exists bq1; split; [reflexivity|lia].
      * intros Htr. destruct (Ht Htr) as [tbq [E L]]. rewrite E in T1.
        destruct (tile_base_qualities c1) as [tbq1|]; [|discriminate].
        injection T1 as T1. exists tbq1; split; [reflexivity|lia].
Qed.

Ltac close_add_bases :=
  match goal with
  | |- outcome_exn (add_bases 0 ?ps ?t ?s) = None =>
      let c' := fresh "c'" in let E := fresh "E" in
      destruct (add_bases_ok ps 0 t s) as [c' E];
      [simpl; rewrite ?length_combine, ?extend_length, ?length_list_ascii; lia
      |eexists; split; [reflexivity|]; simpl;
       rewrite ?length_combine, ?extend_length, ?length_list_ascii; lia
      |simpl; intros;
       first [discriminate
             |eexists; split; [reflexivity|]; simpl;
              rewrite ?length_combine, ?extend_length, ?length_list_ascii; lia]
      |rewrite E; reflexivity]
  end.

Lemma collect_exn_inv r c (Hc : collector_inv c) :
  outcome_exn (collect r c) =
    if read_len r =? 0 then Some ZeroDivisionError
    else if negb (truthy_bool (qualities c) ||
                  match qualities c with None => truthy_str (Read.qualities r) | Some _ => false end)
    then Some UnboundLocalError
    else match Read.qualities r with
         | None => Some TypeError
         | Some _ =>
             match tile_key_regexp c with
             | Some rx => match rx (Read.name r) with None => Some ValueError | Some _ => None end
             | None => None
             end
         end.
Proof.
  destruct c as [mrl cnt sl sg bs rxo qq sq bq tbq tsq].
  unfold collector_inv, track_tiles in Hc; cbn [max_read_len qualities sequence_qualities base_qualities
    tile_base_qualities tile_sequence_qualities tile_key_regexp] in Hc |- *.
  destruct Hc as [Hm [Ht [Hf [Htt Htf]]]]. subst mrl.
  destruct qq as [[|]|]; cbn [truthy_bool andb] in Ht, Hf, Htt, Htf;
  [destruct (Ht eq_refl) as [Hsq Hbq]; destruct sq as [sq|]; [|congruence];
   destruct bq as [bq|]; [|congruence]; clear Hf Ht
  |destruct (Hf eq_refl) as [-> ->]; clear Ht Hf
  |destruct (Hf eq_refl) as [-> ->]; clear Ht Hf];
  (destruct rxo as [rx|];
   [try (destruct (Htt eq_refl) as [Htb Hts]; destruct tbq as [tbq|]; [|congruence];
         destruct tsq as [tsq|]; [|congruence]);
    try (destruct (Htf eq_refl) as [-> ->])
   |destruct (Htf eq_refl) as [-> ->]]); clear Htt Htf;
  destruct (truthy_str (Read.qualities r)) eqn:Etq;
  unfold collect, extend_bases, track_tiles, read_len; cbv zeta;
  py_split; simpl in *; nat_facts; try lia; try reflexivity; try close_add_bases;
  try congruence.
Qed.

(** X3: on a collector built by collecting reads, [collect] raises [ZeroDivisionError] for an empty read, otherwise [UnboundLocalError] when qualities are off (or undetermined and the read has none), otherwise [TypeError] for a read without a quality string, otherwise [ValueError] when tile tracking is on and the tile key regexp does not match the read name, and raises nothing in every other case. *)
Theorem collect_exceptions (q : option bool) (rx : option Regexp)
    (prev : list Read.Sequence) (r : Read.Sequence) :
  let c := collect_all (ReadStatCollector_new q rx) prev in
  outcome_exn (collect r c) =
    if read_len r =? 0 then Some ZeroDivisionError
    else if negb (truthy_bool (qualities c) ||
                  match qualities c with None => truthy_str (Read.qualities r) | Some _ => false end)
    then Some UnboundLocalError
    else match Read.qualities r with
         | None => Some TypeError
         | Some _ =>
             match rx with
             | Some rx' => match rx' (Read.name r) with None => Some ValueError | Some _ => None end
             | None => None
             end
         end.
Proof.
  cbv zeta. rewrite collect_exn_inv by (apply collect_all_inv, new_collector_inv).
  assert (E : tile_key_regexp (collect_all (ReadStatCollector_new q rx) prev) = rx).
  { clear r. destruct (new_collector_counts q rx) as [_ [_ [_ [_ [E _]]]]].
    rewrite <- E at 2. generalize (ReadStatCollector_new q rx). clear E.
    induction prev as [|r t IH]; intros c; simpl; [reflexivity|].
    rewrite IH. apply (collect_scalars r c). }
  rewrite E. reflexivity.
Qed.


Lemma nth_update_at {D} (l : list D) i f l' j d :
  update_at l i f = Some l' -> nth j l' d = if j =? i then f (nth i l d) else nth j l d.
Proof.
  revert i j l'; induction l as [|x t IH]; intros [|i] j l' H; simpl in H; try discriminate.
  - injection H as <-. destruct j; reflexivity.
  - destruct (update_at t i f) as [t'|] eqn:E; simpl in H; [|discriminate].
    injection H as <-. destruct j as [|j]; simpl; [reflexivity|].
    apply (IH i j t' E).
Qed.


Lemma add_base_counts i b q t c c'
  (H : add_base i b (Some q) t c = Ok c' tt) :
  forall j k,
    pos_count (bases c') j k = pos_count (bases c) j k + (if (j =? i) && Ascii.eqb b k then 1 else 0) /\
    opt_pos_count (base_qualities c') j k =
      opt_pos_count (base_qualities c) j k + (if (j =? i) && Ascii.eqb q k then 1 else 0).
Proof.
  intros j k.
  destruct c as [mrl cnt sl sg bs rxo qq sq bq tbq tsq].
  unfold add_base in H. py_simpl.
  destruct (update_at bs i (fun d => cd_incr d b)) as [bs'|] eqn:Eb; [|discriminate]. py_simpl.
  destruct bq as [bq|]; [|discriminate]. py_simpl.
  destruct (update_at bq i (fun d => cd_incr d q)) as [bq'|] eqn:Eq; [|discriminate]. py_simpl.
  assert (G : pos_count bs' j k = pos_count bs j k + (if (j =? i) && Ascii.eqb b k then 1 else 0) /\
              pos_count bq' j k = pos_count bq j k + (if (j =? i) && Ascii.eqb q k then 1 else 0)).
  { unfold pos_count. pose proof (@nth_update_at (CountingDict ascii) _ _ _ _ j [] Eb) as X1.
    pose proof (@nth_update_at (CountingDict ascii) _ _ _ _ j [] Eq) as X2. rewrite X1, X2; clear X1 X2.
    destruct (Nat.eqb_spec j i) as [->|]; simpl; [|split; lia].
    rewrite !cd_get_incr. cbn [keq KeyEq_ascii].
    destruct (Ascii.eqb_spec k b), (Ascii.eqb_spec b k), (Ascii.eqb_spec k q), (Ascii.eqb_spec q k);
    subst; try congruence; split; reflexivity. }
  destruct (truthy_str t).
  - destruct tbq as [tbq|], t as [s|]; try discriminate. py_simpl.
    destruct (update_at tbq i (fun d => nd_incr d s q)); [|discriminate]. py_simpl.
    injection H as <-. exact G.
  - injection H as <-. exact G.
Qed.
Lemma add_bases_counts ps j t c c'
  (H : add_bases j ps t c = Ok c' tt) :
  forall i k,
    pos_count (bases c') i k = pos_count (bases c) i k + (if j <=? i then zip_hit ps fst (i - j) k else 0) /\
    opt_pos_count (base_qualities c') i k =
      opt_pos_count (base_qualities c) i k + (if j <=? i then zip_hit ps snd (i - j) k else 0).
Proof.
  revert j c H; induction ps as [|[b q] ps IH]; intros j c H i k; simpl in H.
  - injection H as <-. unfold zip_hit. destruct (i - j), (j <=? i); simpl; lia.
  - unfold bind in H. destruct (add_base j b (Some q) t c) as [c1 []|] eqn:E1; [|discriminate].
    destruct (add_base_counts j b q t c c1 E1 i k) as [A1 B1].
    destruct (IH (S j) c1 H i k) as [A2 B2].
    rewrite A2, B2, A1, B1. unfold zip_hit.
    destruct (Nat.lt_total i j) as [Hl|[->|Hl]].
    + replace (j <=? i) with false by (symmetry; apply Nat.leb_gt; lia).
      replace (S j <=? i) with false by (symmetry; apply Nat.leb_gt; lia).
      replace (i =? j) with false by (symmetry; apply Nat.eqb_neq; lia). simpl. lia.
    + rewrite Nat.leb_refl, Nat.eqb_refl, Nat.sub_diag.
      replace (S j <=? j) with false by (symmetry; apply Nat.leb_gt; lia). simpl. lia.
    + replace (j <=? i) with true by (symmetry; apply Nat.leb_le; lia).
      replace (S j <=? i) with true by (symmetry; apply Nat.leb_le; lia).
      replace (i =? j) with false by (symmetry; apply Nat.eqb_neq; lia).
      replace (i - j) with (S (i - S j)) by lia. simpl. lia.
Qed.

Lemma collect_counts_inv r c qs (Hc : collector_inv c) (Hq : Read.qualities r = Some qs) :
  match collect r c with
  | Ok c' _ =>
      forall i k,
        pos_count (bases c') i k = pos_count (bases c) i k +
          zip_hit (combine (list_ascii_of_string (Read.sequence r)) (list_ascii_of_string qs)) fst i k /\
        opt_pos_count (base_qualities c') i k = opt_pos_count (base_qualities c) i k +
          zip_hit (combine (list_ascii_of_string (Read.sequence r)) (list_ascii_of_string qs)) snd i k
  | Raised _ _ => True
  end.
Proof.
  destruct r as [nm sq0 rq mg mt]; cbn in Hq |- *; subst rq.
  destruct c as [mrl cnt sl sg bs rxo qq sq bq tbq tsq].
  unfold collector_inv, track_tiles in Hc; cbn [max_read_len qualities sequence_qualities base_qualities
    tile_base_qualities tile_sequence_qualities tile_key_regexp] in Hc |- *.
  destruct Hc as [Hm [Ht [Hf [Htt Htf]]]]. subst mrl.
  destruct qq as [[|]|]; cbn [truthy_bool andb] in Ht, Hf, Htt, Htf;
  [destruct (Ht eq_refl) as [Hsq Hbq]; destruct sq as [sq|]; [|congruence];
   destruct bq as [bq|]; [|congruence]; clear Hf Ht
  |destruct (Hf eq_refl) as [-> ->]; clear Ht Hf
  |destruct (Hf eq_refl) as [-> ->]; clear Ht Hf];
  (destruct rxo as [rx|];
   [try (destruct (Htt eq_refl) as [Htb Hts]; destruct tbq as [tbq|]; [|congruence];
         destruct tsq as [tsq|]; [|congruence]);
    try (destruct (Htf eq_refl) as [-> ->])
   |destruct (Htf eq_refl) as [-> ->]]); clear Htt Htf;
  unfold collect, extend_bases, track_tiles; cbv zeta;
  py_split; simpl in *; nat_facts; try lia; try exact I;
  match goal with
  | |- match add_bases 0 ?ps ?t ?s with _ => _ end =>
      let c' := fresh "c'" in let E := fresh "E" in
      destruct (add_bases 0 ps t s) as [c' []|] eqn:E; [|exact I];
      intros i k; destruct (add_bases_counts _ _ _ _ _ E i k) as [A B];
      rewrite A, B; cbn [bases base_qualities]; rewrite Nat.sub_0_r; simpl;
      unfold opt_pos_count; rewrite ?pos_count_extend, ?pos_count_nil; split; reflexivity
  end.
Qed.

(** X4: when [collect] of a read with qualities succeeds, the base table and the base-quality table gain exactly one count per position i below the shorter of the sequence and quality string, for the base (resp. quality character) at position i. *)
Theorem collect_position_counts (q : option bool) (rx : option Regexp) (prev : list Read.Sequence)
    (r : Read.Sequence) (qs : string) (c' : ReadStatCollector)
  (Hq : Read.qualities r = Some qs)
  (Hok : collect r (collect_all (ReadStatCollector_new q rx) prev) = Ok c' tt) :
  forall i k,
    pos_count (bases c') i k =
      pos_count (bases (collect_all (ReadStatCollector_new q rx) prev)) i k +
      zip_hit (combine (list_ascii_of_string (Read.sequence r)) (list_ascii_of_string qs)) fst i k /\
    opt_pos_count (base_qualities c') i k =
      opt_pos_count (base_qualities (collect_all (ReadStatCollector_new q rx) prev)) i k +
      zip_hit (combine (list_ascii_of_string (Read.sequence r)) (list_ascii_of_string qs)) snd i k.
Proof.
  pose proof (collect_counts_inv r (collect_all (ReadStatCollector_new q rx) prev) qs
                (collect_all_inv _ prev (new_collector_inv q rx)) Hq) as H.
  rewrite Hok in H. exact H.
Qed.

Lemma collect_position_counts_witness :
  Read.qualities read_ACGT = Some "IIII"%string /\
  collect read_ACGT (collect_all (ReadStatCollector_new (Some true) None) [])
    = Ok (final_state (collect read_ACGT (ReadStatCollector_new (Some true) None))) tt /\
  pos_count (bases (final_state (collect read_ACGT (ReadStatCollector_new (Some true) None)))) 2 "G"%char =
    pos_count (bases (collect_all (ReadStatCollector_new (Some true) None) [])) 2 "G"%char +
    zip_hit (combine (list_ascii_of_string (Read.sequence read_ACGT))
                     (list_ascii_of_string "IIII"%string)) fst 2 "G"%char.
Proof.
  assert (Hok : collect read_ACGT (collect_all (ReadStatCollector_new (Some true) None) [])
    = Ok (final_state (collect read_ACGT (ReadStatCollector_new (Some true) None))) tt)
    by (vm_compute; reflexivity).
  split; [reflexivity|split; [exact Hok|]].
  apply (collect_position_counts (Some true) None [] read_ACGT "IIII"%string _ eq_refl Hok).
Defined.


Lemma nth_error_enumerate {A} (xs : list A) n i :
  nth_error (enumerate n xs) i = option_map (pair (n + i)) (nth_error xs i).
Proof.
  revert n i; induction xs as [|x t IH]; intros n [|i]; simpl; try reflexivity.
  - rewrite Nat.add_0_r; reflexivity.
  - rewrite IH. f_equal. f_equal. lia.
Qed.

Lemma length_enumerate {A} (xs : list A) n : List.length (enumerate n xs) = List.length xs.
Proof. revert n; induction xs; intros n; simpl; auto. Qed.

(** X5: [BaseCountingDicts.flatten] returns one row per dict, numbered from 1 in dict order, each with as many values as the header has columns, the value in column j being that dict's count (0 if absent) of the key the header names at j. *)
Theorem flatten_rows_aligned (qual2int : ascii -> Z) (dicts : list (CountingDict ascii))
    (dt : option string) :
  List.length (snd (flatten qual2int dicts dt)) = List.length dicts /\
  forall i d, nth_error dicts i = Some d ->
    exists vs, nth_error (snd (flatten qual2int dicts dt)) i = Some (S i, vs) /\
      List.length vs = List.length (fst (flatten qual2int dicts dt)) /\
      forall j h, nth_error (fst (flatten qual2int dicts dt)) j = Some h ->
        exists k, nth_error vs j = Some (cd_get d k) /\
          h = (if match dt with Some s => String.eqb s "q" | None => false end
               then HQ (qual2int k) else HK k).
Proof.
  unfold flatten. cbv zeta.
  match goal with |- context [map (fun '(i, d) => (i, map (cd_get d) ?ks)) _] =>
    set (keys := ks) end.
  cbn [fst snd]. split.
  - rewrite length_map, length_enumerate. reflexivity.
  - intros i d Hd. rewrite nth_error_map, nth_error_enumerate, Hd. simpl.
    exists (map (cd_get d) keys). split; [reflexivity|split].
    + destruct (match dt with Some s => String.eqb s "q" | None => false end);
        rewrite !length_map; reflexivity.
    + intros j h Hh. rewrite nth_error_map.
      destruct (match dt with Some s => String.eqb s "q" | None => false end);
        rewrite nth_error_map in Hh; destruct (nth_error keys j) as [k|]; simpl in *;
        try discriminate; injection Hh as <-; exists k; split; reflexivity.
Qed.

Lemma mem_In' {K} `{KeyEq K} (k : K) l : mem k l = true <-> In k l.
Proof.
  unfold mem. rewrite existsb_exists. split.
  - intros [x [Hx Hk]]. destruct (keq_spec k x); [subst; assumption|discriminate].
  - intros Hk. exists k. split; [assumption|]. destruct (keq_spec k k); congruence.
Qed.

Lemma NoDup_set_update {K} `{KeyEq K} (acc ks : list K) : NoDup acc -> NoDup (set_update acc ks).
Proof.
  unfold set_update. revert acc; induction ks as [|x t IH]; intros acc Hacc; simpl; [exact Hacc|].
  apply IH. destruct (existsb (keq x) acc) eqn:E; [exact Hacc|].
  apply NoDup_app; [exact Hacc|constructor; [intros []|constructor]|].
  intros y Hy [Hxy|[]]. subst y. apply (proj2 (mem_In' _ acc)) in Hy. unfold mem in Hy. congruence.
Qed.

Lemma NoDup_key_fold (dicts : list (CountingDict ascii)) acc :
  NoDup acc -> NoDup (fold_left (fun acc d => set_update acc (cd_keys d)) dicts acc).
Proof.
  revert acc; induction dicts as [|d t IH]; intros acc Hacc; simpl; [exact Hacc|].
  apply IH, NoDup_set_update, Hacc.
Qed.

Lemma Perm_insert_by {A} (le : A -> A -> bool) x l : Permutation (insert_by le x l) (x :: l).
Proof.
  induction l as [|h t IH]; simpl; [reflexivity|].
  destruct (le x h); [reflexivity|].
  rewrite IH. apply perm_swap.
Qed.

Lemma Perm_sorted_by {A} (le : A -> A -> bool) l : Permutation (sorted_by le l) l.
Proof.
  unfold sorted_by. induction l as [|h t IH]; simpl; [reflexivity|].
  rewrite Perm_insert_by, IH. reflexivity.
Qed.

Section Sorting.
Variable A : Type.
Variable le : A -> A -> bool.
Hypothesis le_total : forall a b, le a b = false -> le b a = true.

Lemma HdRel_insert_by y x l :
  HdRel (fun a b => le a b = true) y l -> le y x = true ->
  HdRel (fun a b => le a b = true) y (insert_by le x l).
Proof.
  intros Hh Hy. destruct l as [|h t]; simpl; [constructor; exact Hy|].
  destruct (le x h); constructor; [exact Hy|]. inversion Hh; assumption.
Qed.

Lemma Sorted_insert_by x l :
  Sorted (fun a b => le a b = true) l -> Sorted (fun a b => le a b = true) (insert_by le x l).
Proof.
  induction 1 as [|h t Ht IH Hh]; simpl.
  - repeat constructor.
  - destruct (le x h) eqn:E.
    + constructor; [constructor; assumption|constructor; exact E].
    + constructor; [exact IH|]. apply HdRel_insert_by; [exact Hh|apply le_total, E].
Qed.

Lemma Sorted_sorted_by l : Sorted (fun a b => le a b = true) (sorted_by le l).
Proof.
  unfold sorted_by. induction l as [|h t IH]; simpl; [constructor|].
  apply Sorted_insert_by, IH.
Qed.
End Sorting.

Lemma ascii_le_total a b : ascii_le a b = false -> ascii_le b a = true.
Proof. unfold ascii_le. intros H. apply Nat.leb_gt in H. apply Nat.leb_le. lia. Qed.

Lemma In_key_fold' (dicts : list (CountingDict ascii)) k :
  In k (fold_left (fun acc d => set_update acc (cd_keys d)) dicts []) <-> observed dicts k.
Proof. rewrite In_key_fold. split; [intros [[]|?]; assumption|auto]. Qed.

Lemma cd_get_absent {K} `{KeyEq K} (d : CountingDict K) k :
  ~ In k (cd_keys d) -> cd_get d k = 0.
Proof.
  unfold cd_keys. induction d as [|[k0 n] t IH]; simpl; intros Hk; [reflexivity|].
  destruct (keq_spec k k0) as [<-|_]; [exfalso; tauto|]. apply IH; tauto.
Qed.

Lemma In_enumerate {A} (xs : list A) n i x : In (i, x) (enumerate n xs) -> In x xs.
Proof.
  revert n; induction xs as [|y t IH]; intros n; simpl; [tauto|].
  intros [E|E]; [injection E as _ <-; left; reflexivity|right; eapply IH; exact E].
Qed.

(** X6: outside the nucleotide mode, the header of [BaseCountingDicts.flatten]
    lists every observed key exactly once, in sorted order (converted by
    [qual2int] in the quality mode). *)
Theorem flatten_header_order (qual2int : ascii -> Z) (dicts : list (CountingDict ascii)) :
  exists keys, NoDup keys /\ Sorted (fun a b => ascii_le a b = true) keys /\
    (forall k, In k keys <-> observed dicts k) /\
    forall dt, dt <> Some "n"%string ->
      fst (flatten qual2int dicts dt) =
        if match dt with Some s => String.eqb s "q" | None => false end
        then map (fun k => HQ (qual2int k)) keys else map HK keys.
Proof.
  set (keys := fold_left (fun acc d => set_update acc (cd_keys d)) dicts []).
  assert (Hnd : NoDup keys) by (apply NoDup_key_fold; constructor).
  exists (sorted_by ascii_le keys). split; [|split; [|split]].
  - apply (Permutation_NoDup (Permutation_sym (Perm_sorted_by _ _))), Hnd.
  - apply Sorted_sorted_by, ascii_le_total.
  - intros k. rewrite In_sorted_by. apply In_key_fold'.
  - intros dt Hn. rewrite flatten_header_shape. cbv zeta.
    assert (En : match dt with Some s => String.eqb s "n" | None => false end = false).
    { destruct dt as [s|]; [|reflexivity]. destruct (String.eqb_spec s "n"); congruence. }
    rewrite En. reflexivity.
Qed.

(** C9 (amended): in the bases ordering ([datatype="n"]) the header is
    A, C, G, T (always, even unobserved), then the other observed keys,
    then N only if it was observed, with no key twice; every row holds the
    dict's counts in that column order, so an unobserved A, C, G or T has
    count 0 in every row.  In every other mode the header holds exactly the
    observed keys (converted by [qual2int] in the quality mode). *)
Theorem flatten_header_keys (qual2int : ascii -> Z) (dicts : list (CountingDict ascii)) :
  (forall h, In h (fst (flatten qual2int dicts (Some "n"%string))) <->
     exists k, h = HK k /\ (In k ["A"; "C"; "G"; "T"]%char \/ observed dicts k)) /\
  (forall h, In h (fst (flatten qual2int dicts (Some "q"%string))) <->
     exists k, h = HQ (qual2int k) /\ observed dicts k) /\
  (forall dt h, dt <> Some "n"%string -> dt <> Some "q"%string ->
     (In h (fst (flatten qual2int dicts dt)) <-> exists k, h = HK k /\ observed dicts k)) /\
  (exists mid NN, (NN = [] \/ NN = ["N"%char]) /\ (In "N"%char NN <-> observed dicts "N"%char) /\
     (forall k, In k mid <-> observed dicts k /\ ~ In k ["A"; "C"; "G"; "T"; "N"]%char) /\
     NoDup (["A"; "C"; "G"; "T"]%char ++ mid ++ NN) /\
     fst (flatten qual2int dicts (Some "n"%string)) = map HK (["A"; "C"; "G"; "T"]%char ++ mid ++ NN) /\
     snd (flatten qual2int dicts (Some "n"%string)) =
       map (fun '(i, d) => (i, map (cd_get d) (["A"; "C"; "G"; "T"]%char ++ mid ++ NN)))
         (enumerate 1 dicts)) /\
  (forall j k row, nth_error ["A"; "C"; "G"; "T"]%char j = Some k -> ~ observed dicts k ->
     In row (snd (flatten qual2int dicts (Some "n"%string))) -> nth_error (snd row) j = Some 0).
Proof.
  set (keys := fold_left (fun acc d => set_update acc (cd_keys d)) dicts []).
  assert (Hnd : NoDup keys) by (apply NoDup_key_fold; constructor).
  assert (Hsnd : snd (flatten qual2int dicts (Some "n"%string)) =
       map (fun '(i, d) => (i, map (cd_get d) (["A"; "C"; "G"; "T"]%char ++
          List.filter (fun k => negb (mem k (["A"; "C"; "G"; "T"]%char ++
               (if mem "N"%char keys then ["N"%char] else [])))) keys ++
          (if mem "N"%char keys then ["N"%char] else []))))
         (enumerate 1 dicts)) by reflexivity.
  split; [|split; [|split; [|split]]].
  - intros h. rewrite flatten_header_shape. cbv zeta. cbn [String.eqb Ascii.eqb Bool.eqb].
    rewrite in_map_iff. split.
    + intros [k [<- Hk]]. exists k; split; [reflexivity|].
      rewrite !in_app_iff, filter_In in Hk.
      destruct Hk as [Hk|[[Hk _]|Hk]]; [tauto| |].
      * right. apply In_key_fold in Hk. destruct Hk as [[]|]; assumption.
      * destruct (mem "N"%char _) eqn:E; [|destruct Hk].
        destruct Hk as [<-|[]]. right. apply mem_In, In_key_fold in E.
        destruct E as [[]|]; assumption.
    + intros [k [-> Hk]]. exists k; split; [reflexivity|].
      rewrite !in_app_iff, filter_In.
      destruct Hk as [Hk|Hk]; [left; exact Hk|].
      assert (Hin : In k (fold_left (fun acc d => set_update acc (cd_keys d)) dicts []))
        by (apply In_key_fold; right; assumption).
      cbv beta. remember (mem k _) as b eqn:E. symmetry in E. destruct b.
      * apply mem_In in E. rewrite in_app_iff in E. destruct E as [E|E]; [left; exact E|].
        right; right. exact E.
      * right; left. split; [exact Hin|]. reflexivity.
  - intros h. rewrite flatten_header_shape. cbv zeta. cbn [String.eqb Ascii.eqb Bool.eqb].
    rewrite in_map_iff. split.
    + intros [k [<- Hk]]. exists k; split; [reflexivity|].
      apply In_sorted_by, In_key_fold in Hk. destruct Hk as [[]|]; assumption.
    + intros [k [-> Hk]]. exists k; split; [reflexivity|].
      apply In_sorted_by, In_key_fold. right; assumption.
  - intros dt h Hn Hq. rewrite flatten_header_shape. cbv zeta.
    assert (En : match dt with Some s => String.eqb s "n" | None => false end = false).
    { destruct dt as [s|]; [|reflexivity]. destruct (String.eqb_spec s "n"); congruence. }
    assert (Eq : match dt with Some s => String.eqb s "q" | None => false end = false).
    { destruct dt as [s|]; [|reflexivity]. destruct (String.eqb_spec s "q"); congruence. }
    rewrite En, Eq, in_map_iff. split.
    + intros [k [<- Hk]]. exists k; split; [reflexivity|].
      apply In_sorted_by, In_key_fold in Hk. destruct Hk as [[]|]; assumption.
    + intros [k [-> Hk]]. exists k; split; [reflexivity|].
      apply In_sorted_by, In_key_fold. right; assumption.
  - exists (List.filter (fun k => negb (mem k (["A"; "C"; "G"; "T"]%char ++
               (if mem "N"%char keys then ["N"%char] else [])))) keys).
    exists (if mem "N"%char keys then ["N"%char] else []).
    split; [|split; [|split; [|split; [|split]]]].
    + destruct (mem "N"%char keys); auto.
    + destruct (mem "N"%char keys) eqn:E; simpl.
      * split; [intros _|tauto]. apply In_key_fold'. apply mem_In'. exact E.
      * split; [tauto|]. intros Ho. apply In_key_fold', mem_In' in Ho. fold keys in Ho. congruence.
    + intros k. pose proof (In_key_fold' dicts k) as HK. fold keys in HK.
      rewrite filter_In, negb_true_iff, HK. split.
      * intros [Hk Hm]. split; [exact Hk|]. intros Hin.
        assert (Hin' : In k (["A"; "C"; "G"; "T"]%char ++
                   (if mem "N"%char keys then ["N"%char] else []))).
        { destruct (mem "N"%char keys) eqn:E; simpl in Hin |- *; [tauto|].
          destruct Hin as [H1|[H1|[H1|[H1|[H1|[]]]]]]; try tauto.
          subst k. apply In_key_fold', mem_In' in Hk. fold keys in Hk. congruence. }
        apply mem_In' in Hin'. congruence.
      * intros [Hk Hn]. split; [exact Hk|].
        destruct (mem k _) eqn:E; [|reflexivity]. exfalso. apply Hn.
        apply mem_In' in E. destruct (mem "N"%char keys); simpl in E |- *; tauto.
    + rewrite app_assoc. apply NoDup_app.
      * apply NoDup_app.
        -- repeat constructor; simpl; intuition discriminate.
        -- apply NoDup_filter, Hnd.
        -- intros a Ha Hb. apply filter_In in Hb as [_ Hb].
           apply negb_true_iff in Hb. rewrite (proj2 (mem_In' _ _)) in Hb; [discriminate|].
           apply in_app_iff; left; exact Ha.
      * destruct (mem "N"%char keys); repeat constructor; intros [].
      * intros a Ha Hb. destruct (mem "N"%char keys) eqn:E; [|destruct Hb].
        destruct Hb as [<-|[]]. apply in_app_iff in Ha as [Ha|Ha].
        -- simpl in Ha; intuition discriminate.
        -- apply filter_In in Ha as [_ Ha]. apply negb_true_iff in Ha.
           rewrite (proj2 (mem_In' _ _)) in Ha; [discriminate|].
           apply in_app_iff; right; left; reflexivity.
    + reflexivity.
    + exact Hsnd.
  - intros j k row Hj Hk Hrow. rewrite Hsnd, in_map_iff in Hrow.
    destruct Hrow as [[i d] [<- Hid]]. simpl.
    assert (Hz : cd_get d k = 0).
    { apply cd_get_absent. intros Hin. apply Hk. exists d.
      split; [eapply In_enumerate; exact Hid|exact Hin]. }
    destruct j as [|[|[|[|j]]]]; simpl in Hj |- *;
      [injection Hj as <-; rewrite Hz; reflexivity ..|destruct j; discriminate].
Qed.

Lemma flatten_header_keys_witness :
  (Some "b"%string <> Some "n"%string /\ Some "b"%string <> Some "q"%string) /\
  (In (HK "N"%char) (fst (flatten phred33 [[("N"%char, 1)]] (Some "b"%string))) <->
   exists k, HK "N"%char = HK k /\ observed [[("N"%char, 1)]] k).
Proof.
  split; [split; discriminate|].
  apply (proj1 (proj2 (proj2 (flatten_header_keys phred33 [[("N"%char, 1)]]))));
    discriminate.
Defined.

Lemma In_tile_fold (dicts : list (NestedDict ascii)) acc t :
  In t (fold_left (fun acc d => set_update acc (map fst d)) dicts acc) <->
  In t acc \/ exists d, In d dicts /\ In t (map fst d).
Proof.
  revert acc; induction dicts as [|d r IH]; intros acc; simpl.
  - split; [tauto|]. intros [?|[? [[] _]]]. assumption.
  - rewrite IH, In_set_update. split.
    + intros [[?|?]|[d' [? ?]]]; [tauto| |]; right; eauto.
    + intros [?|[d' [[<-|?] ?]]]; [tauto| |]; eauto.
Qed.

Lemma NoDup_tile_fold (dicts : list (NestedDict ascii)) acc :
  NoDup acc -> NoDup (fold_left (fun acc d => set_update acc (map fst d)) dicts acc).
Proof.
  revert acc; induction dicts as [|d t IH]; intros acc Hacc; simpl; [exact Hacc|].
  apply IH, NoDup_set_update, Hacc.
Qed.

Lemma nth_error_flat_map_block {A B} (f : A -> list B) n (xs : list A) ti x i :
  (forall a, List.length (f a) = n) -> nth_error xs ti = Some x -> i < n ->
  nth_error (flat_map f xs) (ti * n + i) = nth_error (f x) i.
Proof.
  intros Hn. revert ti; induction xs as [|a t IH]; intros [|ti] Hx Hi; simpl in *; try discriminate.
  - injection Hx as <-. rewrite nth_error_app1 by (rewrite Hn; lia). reflexivity.
  - rewrite nth_error_app2 by (rewrite Hn; lia). rewrite Hn.
    replace (n + ti * n + i - n) with (ti * n + i) by lia. apply IH; assumption.
Qed.

(** X15: [BaseNestedDicts.flatten] returns, for each outer key in sorted order (each observed key once) and each dict in order, the row (i, key, values) numbered from 1, at position (key rank) * (number of dicts) + (dict rank); its values line up with the header, the value in column j being the inner count (0 if absent) of the header's j-th inner key. *)
Theorem flatten_nested_rows (qual2int : ascii -> Z) (dicts : list (NestedDict ascii)) (dt : option string) :
  exists tiles, NoDup tiles /\ Sorted (fun a b => String.leb a b = true) tiles /\
    (forall t, In t tiles <-> exists d, In d dicts /\ In t (map fst d)) /\
    List.length (snd (flatten_nested qual2int dicts dt)) = List.length tiles * List.length dicts /\
    forall ti t i d, nth_error tiles ti = Some t -> nth_error dicts i = Some d ->
      exists vs, nth_error (snd (flatten_nested qual2int dicts dt)) (ti * List.length dicts + i)
                   = Some (S i, t, vs) /\
        List.length vs = List.length (fst (flatten_nested qual2int dicts dt)) /\
        forall j h, nth_error (fst (flatten_nested qual2int dicts dt)) j = Some h ->
          exists k, nth_error vs j = Some (cd_get (nd_get d t) k) /\
            h = (if match dt with Some s => String.eqb s "q" | None => false end
                 then HQ (qual2int k) else HK k).
Proof.
  unfold flatten_nested; cbv zeta.
  set (keys1 := fold_left (fun acc d => set_update acc (map fst d)) dicts []).
  match goal with |- context [map (cd_get (nd_get _ _)) ?ks] => set (keys2 := ks) end.
  exists (sorted_by String.leb keys1). cbn [fst snd].
  assert (Hnd : NoDup keys1) by (apply NoDup_tile_fold; constructor).
  split; [|split; [|split; [|split]]].
  - apply (Permutation_NoDup (Permutation_sym (Perm_sorted_by _ _))), Hnd.
  - apply Sorted_sorted_by. intros a b E. destruct (String.leb_total a b); congruence.
  - intros t. rewrite In_sorted_by. unfold keys1. rewrite In_tile_fold. split; [intros [[]|?]; assumption|auto].
  - rewrite length_flat_map.
    rewrite (map_ext _ (fun _ => List.length dicts)) by (intros; rewrite length_map, length_enumerate; reflexivity).
    generalize (sorted_by String.leb keys1). intros l. induction l; simpl; lia.
  - intros ti t i d Ht Hd.
    assert (Hi : i < List.length dicts) by (apply nth_error_Some; congruence).
    rewrite (nth_error_flat_map_block _ (List.length dicts) _ ti t i) by
      (try (intros; rewrite length_map, length_enumerate; reflexivity); assumption).
    rewrite nth_error_map, nth_error_enumerate, Hd. simpl.
    exists (map (cd_get (nd_get d t)) keys2). split; [reflexivity|split].
    + destruct (match dt with Some s => String.eqb s "q" | None => false end);
        rewrite !length_map; reflexivity.
    + intros j h Hh. rewrite nth_error_map.
      destruct (match dt with Some s => String.eqb s "q" | None => false end);
        rewrite nth_error_map in Hh; destruct (nth_error keys2 j) as [k|]; simpl in *;
        try discriminate; injection Hh as <-; exists k; split; reflexivity.
Qed.


Lemma cd_incr_keys {K} `{KeyEq K} (d : CountingDict K) k :
  map fst (cd_incr d k) = if mem k (map fst d) then map fst d else map fst d ++ [k].
Proof.
  unfold mem. induction d as [|[k0 n] t IH]; simpl; [reflexivity|].
  destruct (keq k k0) eqn:E; simpl; [reflexivity|].
  rewrite IH. destruct (existsb (keq k) (map fst t)); reflexivity.
Qed.

Lemma cd_incr_NoDup {K} `{KeyEq K} (d : CountingDict K) k :
  NoDup (map fst d) -> NoDup (map fst (cd_incr d k)).
Proof.
  intros Hd. rewrite cd_incr_keys. destruct (mem k (map fst d)) eqn:E; [exact Hd|].
  apply NoDup_app; [exact Hd|repeat constructor; intros []|].
  intros y Hy [<-|[]]. apply (proj2 (mem_In' _ _)) in Hy. congruence.
Qed.

Lemma cd_incr_pos {K} `{KeyEq K} (d : CountingDict K) k :
  (forall p, In p d -> 0 < snd p) -> forall p, In p (cd_incr d k) -> 0 < snd p.
Proof.
  induction d as [|[k0 n] t IH]; simpl; intros Hp p Hin.
  - destruct Hin as [<-|[]]; simpl; lia.
  - destruct (keq k k0); simpl in Hin.
    + destruct Hin as [<-|Hin]; simpl; [lia|]. apply Hp; right; exact Hin.
    + destruct Hin as [<-|Hin]; [apply Hp; left; reflexivity|].
      apply IH; [intros; apply Hp; right; assumption|exact Hin].
Qed.

Lemma In_cd_get {K} `{KeyEq K} (d : CountingDict K) n c :
  NoDup (map fst d) -> (forall p, In p d -> 0 < snd p) ->
  (In (n, c) d <-> cd_get d n = c /\ 0 < c).
Proof.
  induction d as [|[k0 m] t IH]; simpl; intros Hnd Hp.
  - split; [intros []|]. intros [<- ?]; lia.
  - inversion Hnd as [|? ? Hnin Hnd']; subst.
    destruct (keq_spec n k0) as [->|Hne].
    + split.
      * intros [E|Hin]; [injection E as <-; split; [reflexivity|apply (Hp (k0, m)); left; reflexivity]|].
        exfalso; apply Hnin. apply (in_map fst _ _ Hin).
      * intros [<- Hc]. left; reflexivity.
    + rewrite <- IH by auto. split; [intros [E|?]; [congruence|assumption]|auto].
Qed.

Lemma cd_total_perm {K} (l l' : CountingDict K) : Permutation l l' -> cd_total l = cd_total l'.
Proof. unfold cd_total. induction 1; simpl; lia. Qed.

Lemma collect_all_lengths_wf c reads :
  NoDup (map fst (sequence_lengths c)) -> (forall p, In p (sequence_lengths c) -> 0 < snd p) ->
  NoDup (map fst (sequence_lengths (collect_all c reads))) /\
  (forall p, In p (sequence_lengths (collect_all c reads)) -> 0 < snd p).
Proof.
  revert c; induction reads as [|r t IH]; intros c H1 H2; simpl; [auto|].
  destruct (collect_scalars r c) as [_ [_ [_ [E _]]]].
  apply IH; rewrite E; destruct (read_len r =? 0);
    first [exact H1|exact H2|apply cd_incr_NoDup, H1|apply cd_incr_pos, H2].
Qed.

(** X7: [ReadStatCollector.finish] after a stream of reads reports [count] as the number of non-empty reads and the length table as exactly the pairs (n, k) with n > 0 and k > 0 reads of length n, each length once and in increasing order; the length and GC tables both total [count]. *)
Theorem collector_finish_lengths (qual2int : ascii -> Z) (q : option bool) (rx : option Regexp)
    (reads : list Read.Sequence) :
  let st := collector_finish qual2int (collect_all (ReadStatCollector_new q rx) reads) in
  st_count st = nonempty_reads reads /\
  (forall n k, In (n, k) (st_length st) <-> 0 < n /\ 0 < k /\ k = reads_of_len reads n) /\
  NoDup (map fst (st_length st)) /\
  Sorted (fun a b => Nat.leb (fst a) (fst b) = true) (st_length st) /\
  cd_total (st_length st) = st_count st /\ cd_total (st_gc st) = st_count st.
Proof.
  cbv zeta. unfold collector_finish, sorted_items. cbn [st_count st_length st_gc].
  set (c := collect_all (ReadStatCollector_new q rx) reads).
  destruct (collect_all_length_histogram q rx reads) as [Hc [Hh [Hl Hg]]]; fold c in Hc, Hh, Hl, Hg.
  destruct (new_collector_counts q rx) as [_ [L0 _]].
  destruct (collect_all_lengths_wf (ReadStatCollector_new q rx) reads) as [Hnd Hpos];
    [rewrite L0; constructor|rewrite L0; intros _ []|]. fold c in Hnd, Hpos.
  pose proof (Perm_sorted_by (fun a b : nat * nat => Nat.leb (fst a) (fst b)) (sequence_lengths c)) as P.
  split; [exact Hc|split; [|split; [|split; [|split]]]].
  - intros n k.
    assert (E : In (n, k) (sorted_by (fun a b : nat * nat => Nat.leb (fst a) (fst b)) (sequence_lengths c))
                <-> In (n, k) (sequence_lengths c))
      by (split; intros Hin; [apply (Permutation_in _ P Hin)|apply (Permutation_in _ (Permutation_sym P) Hin)]).
    rewrite E, (In_cd_get _ _ _ Hnd Hpos), Hh.
    destruct (Nat.eqb_spec n 0) as [->|Hn]; split; intros; lia.
  - apply (Permutation_NoDup (Permutation_map fst (Permutation_sym P))), Hnd.
  - apply Sorted_sorted_by. intros a b E. apply Nat.leb_gt in E. apply Nat.leb_le. lia.
  - rewrite (cd_total_perm _ _ P). exact Hl.
  - rewrite (cd_total_perm _ _ (Perm_sorted_by _ _)). exact Hg.
Qed.


Section Manager.
Context {D : Type} `{KeyEq D}.

Lemma assoc_get_mem {B} (k : D) (l : list (D * B)) v : assoc_get k l = Some v -> mem k (map fst l) = true.
Proof.
  unfold mem. induction l as [|[k0 v0] t IH]; simpl; [discriminate|].
  destruct (keq k k0); simpl; auto.
Qed.

Lemma collect_post_keys (dest : D) i record (m : ReadStatistics) :
  option_map (map fst) (post (final_state (collect_post dest i record m))) = option_map (map fst) (post m).
Proof.
  unfold collect_post; cbv beta.
  destruct (post m) as [p|] eqn:Ep; [|simpl; rewrite Ep; reflexivity].
  destruct (assoc_get dest p) as [cs|] eqn:Eg; [|simpl; rewrite Ep; reflexivity].
  destruct (nth_error cs i), (nth_error record i); try (simpl; rewrite Ep; reflexivity).
  destruct (collect _ _); simpl; rewrite assoc_set_keys, (assoc_get_mem _ _ _ Eg); reflexivity.
Qed.

Lemma final_state_bind {S A B} (x : PyM S A) (k : A -> PyM S B) s :
  final_state (bind x k s) = match x s with Ok s' a => final_state (k a s') | Raised _ s' => s' end.
Proof. unfold bind. destruct (x s); reflexivity. Qed.

Lemma bind_get {S B} (k : S -> PyM S B) s : bind get k s = k s s.
Proof. reflexivity. Qed.

(** X8: [ReadStatistics.post_trim] does nothing unless post-trim collection is on; otherwise it keeps the ordered destinations of the post-trim collectors, adding a new destination at the end. *)
Theorem post_trim_destinations (dest : D) (record : list Read.Sequence) (m : ReadStatistics) :
  match post m with
  | None => post_trim dest record m = Ok m tt
  | Some p =>
      option_map (map fst) (post (final_state (post_trim dest record m))) =
        Some (if mem dest (map fst p) then map fst p else map fst p ++ [dest])
  end.
Proof.
  unfold post_trim. rewrite bind_get. cbv beta.
  destruct (post m) as [p|] eqn:Ep; [|reflexivity].
  set (m1 := if mem dest (map fst p) then m
             else set_post m (Some (p ++ [(dest, make_collectors m)]))).
  assert (E1 : (if mem dest (map fst p) then ret tt
                else modify (fun m => set_post m (Some (p ++ [(dest, make_collectors m)])))) m = Ok m1 tt)
    by (unfold m1; destruct (mem dest (map fst p)); reflexivity).
  assert (K1 : option_map (map fst) (post m1) =
               Some (if mem dest (map fst p) then map fst p else map fst p ++ [dest])).
  { unfold m1. destruct (mem dest (map fst p)); simpl; [rewrite Ep; reflexivity|].
    rewrite map_app. reflexivity. }
  rewrite final_state_bind, E1, final_state_bind.
  pose proof (collect_post_keys dest 0 record m1) as K2.
  destruct (collect_post dest 0 record m1) as [m2 []|e m2]; simpl in K2; [|congruence].
  destruct (paired m).
  - rewrite collect_post_keys. congruence.
  - simpl. congruence.
Qed.

Lemma post_trim_all_none calls (m : ReadStatistics) :
  post m = None -> post_trim_all calls m = m.
Proof.
  unfold post_trim_all. revert m; induction calls as [|[d r] t IH]; intros m Hm; simpl; [reflexivity|].
  pose proof (post_trim_destinations d r m) as P. rewrite Hm in P. rewrite P. simpl. apply IH, Hm.
Qed.

Lemma post_trim_all_some calls (m : ReadStatistics) p :
  post m = Some p ->
  exists p', post (post_trim_all calls m) = Some p' /\ (p' = [] <-> p = [] /\ calls = []).
Proof.
  unfold post_trim_all. revert m p; induction calls as [|[d r] t IH]; intros m p Hm; simpl.
  - exists p. split; [exact Hm|tauto].
  - pose proof (post_trim_destinations d r m) as P. rewrite Hm in P.
    destruct (post (final_state (post_trim d r m))) as [p1|] eqn:E1; [|discriminate].
    simpl in P. injection P as P.
    destruct (IH _ p1 E1) as [p' [E' I']]. exists p'. split; [exact E'|].
    assert (N1 : p1 <> []).
    { intros ->. simpl in P. destruct (mem d (map fst p)) eqn:Em.
      - destruct p; [discriminate|discriminate].
      - destruct (map fst p); discriminate. }
    split; [intros Hp; apply I' in Hp as [? _]; contradiction|intros [_ Hc]; discriminate].
Qed.
End Manager.

(** X9: after any sequence of [post_trim] calls on a fresh [ReadStatistics], [finish] can only raise [NameError], and it raises exactly when the mode is "post" or "both" and at least one [post_trim] call was made. *)
Theorem finish_after_post_trims {D} `{KeyEq D} (qual2int : ascii -> Z) (mode : string) (paired : bool)
    (args : option bool * option Regexp) (calls : list (D * list Read.Sequence)) :
  let m := post_trim_all calls (ReadStatistics_new mode paired args) in
  (forall e, finish qual2int m = inl e -> e = NameError) /\
  ((exists e, finish qual2int m = inl e) <->
   (String.eqb mode "post" || String.eqb mode "both") = true /\ calls <> []).
Proof.
  cbv zeta. unfold finish.
  destruct (String.eqb mode "post" || String.eqb mode "both") eqn:Em.
  - assert (Hp : post (ReadStatistics_new (D:=D) mode paired args) = Some [])
      by (unfold ReadStatistics_new; simpl; rewrite Em; reflexivity).
    destruct (post_trim_all_some calls _ _ Hp) as [p' [E I]]. rewrite E.
    destruct p' as [|x p'].
    + split; [intros e Hf; discriminate|].
      split; [intros [e Hf]; discriminate|]. intros [_ Hc]. exfalso. apply Hc, I; reflexivity.
    + split; [intros e Hf; injection Hf as <-; reflexivity|].
      split; [intros _; split; [reflexivity|]|intros _; eexists; reflexivity].
      intros ->. assert (x :: p' = []) by (apply I; split; reflexivity). discriminate.
  - assert (Hp : post (ReadStatistics_new (D:=D) mode paired args) = None)
      by (unfold ReadStatistics_new; simpl; rewrite Em; reflexivity).
    rewrite post_trim_all_none, Hp by exact Hp.
    split; [intros e Hf; discriminate|]. split; [intros [e Hf]; discriminate|intros [Hc _]; discriminate].
Qed.




Lemma filters_summarize_counts_witness :
  let fs := [(TooShortReadFilter, SingleWrapper_new (call_filter (TooShortReadFilter_obj 5)));
             (TooLongReadFilter, SingleWrapper_new (call_filter (TooLongReadFilter_obj 3)))] in
  let reads := [(read_ACGT, None); (read_ACGT_noqual, None)] in
  NoDup (map fst fs) /\ ~ In NoFilter (map fst fs) /\
  map fst (Filters_summarize (snd (filter_all fs reads))) = map filter_type_name (map fst fs) /\
  cd_total (Filters_summarize (snd (filter_all fs reads))) =
    cd_total (Filters_summarize fs) +
    List.length (List.filter (fun d => negb (FilterType_eqb d NoFilter)) (fst (filter_all fs reads))).
Proof.
  cbv zeta.
  assert (Hnd : NoDup (map fst [(TooShortReadFilter, SingleWrapper_new (call_filter (TooShortReadFilter_obj 5)));
             (TooLongReadFilter, SingleWrapper_new (call_filter (TooLongReadFilter_obj 3)))])).
  { simpl. repeat constructor; simpl; intuition discriminate. }
  assert (Hno : ~ In NoFilter (map fst [(TooShortReadFilter, SingleWrapper_new (call_filter (TooShortReadFilter_obj 5)));
             (TooLongReadFilter, SingleWrapper_new (call_filter (TooLongReadFilter_obj 3)))])).
  { simpl. intuition discriminate. }
  split; [exact Hnd|split; [exact Hno|]].
  apply filters_summarize_counts; assumption.
Defined.

Lemma single_wrapper_ignores_mate_witness :
  String.eqb "single" "both" = false /\
  Filters_add_filter "single" 1%Z [] (TooShortReadFilter_call 5) =
    inr [(TooShortReadFilter, SingleWrapper_new (call_filter (TooShortReadFilter_obj 5)))] /\
  Forall (fun p => policy (snd p) = SingleWrapper)
    [(TooShortReadFilter, SingleWrapper_new (call_filter (TooShortReadFilter_obj 5)))].
Proof.
  assert (Hp : String.eqb "single" "both" = false) by reflexivity.
  assert (Ha : Filters_add_filter "single" 1%Z [] (TooShortReadFilter_call 5) =
    inr [(TooShortReadFilter, SingleWrapper_new (call_filter (TooShortReadFilter_obj 5)))])
    by reflexivity.
  split; [exact Hp|split; [exact Ha|]].
  exact (proj1 (proj2 (single_wrapper_ignores_mate "single" 1%Z Hp)) [] _ _ (Forall_nil _) Ha).
Defined.

Lemma untrimmed_trimmed_chain_discards_all_witness :
  let fs1 := [(UntrimmedFilter, SingleWrapper_new (call_filter UntrimmedFilter_obj))] in
  let fs2 := fs1 ++ [(TrimmedFilter, SingleWrapper_new (call_filter TrimmedFilter_obj))] in
  Filters_add_filter "single" 1%Z [] UntrimmedFilter_call = inr fs1 /\
  Filters_add_filter "single" 1%Z fs1 TrimmedFilter_call = inr fs2 /\
  (String.eqb "single" "both" = false \/ 1%Z = 1%Z) /\
  (fst (fst (filters_filter (fs2 ++ []) read_ACGT (Some read_ACGT))) = UntrimmedFilter \/
   fst (fst (filters_filter (fs2 ++ []) read_ACGT (Some read_ACGT))) = TrimmedFilter).
Proof.
  cbv zeta.
  assert (H1 : Filters_add_filter "single" 1%Z [] UntrimmedFilter_call =
               inr [(UntrimmedFilter, SingleWrapper_new (call_filter UntrimmedFilter_obj))])
    by reflexivity.
  assert (H2 : Filters_add_filter "single" 1%Z
                 [(UntrimmedFilter, SingleWrapper_new (call_filter UntrimmedFilter_obj))]
                 TrimmedFilter_call =
               inr ([(UntrimmedFilter, SingleWrapper_new (call_filter UntrimmedFilter_obj))] ++
                    [(TrimmedFilter, SingleWrapper_new (call_filter TrimmedFilter_obj))]))
    by reflexivity.
  assert (Hm : String.eqb "single" "both" = false \/ 1%Z = 1%Z) by (left; reflexivity).
  split; [exact H1|split; [exact H2|split; [exact Hm|]]].
  exact (proj1 (untrimmed_trimmed_chain_discards_all "single" 1%Z _ _ [] read_ACGT (Some read_ACGT) H1 H2 Hm)).
Defined.
